(** * AstraCode national situational-awareness system: engine, store,
      analytics and ingestion pipeline, embedded from the Python sources

    Layout: one module per Python module ([Engine] for src/engine.py,
    [Database] for src/database.py, [Pipeline] for src/pipeline.py,
    [Analytics] for src/analytics.py), preceded by the small amount of
    Python semantics they share ([Py]).  The properties follow the
    definitions, one module per component.

    Modelling conventions.
    - Python [str] is [string]; the character classes of [re] and the case
      mapping of [str.lower] are their ASCII restrictions (bytes above 127
      are neither word characters, nor white space, nor cased).
    - Python [float] is [Q] together with a rounding operator [fl] applied
      after every floating-point operation.  [fl] is a parameter; the
      theorems that depend on it assume it monotone and exact on the
      numbers a double holds exactly (integers, multiples of 1/64 of
      moderate size), which covers IEEE rounding and exact arithmetic.
    - A raised exception is the [Raised] branch of [PyResult]; code that
      touches the database or the console runs in [Database.IO], which
      threads the world and keeps its effects when an exception is raised.
    - What the libraries do is taken from outside: the HTML parser, the
      classifier and the feed parser are parameters; SQLite is modelled on a
      table of rows, pandas on lists of rows. *)

From Stdlib Require Import List String Ascii Bool ZArith QArith Qround Lia.
From Stdlib Require Import DecimalString.
Import ListNotations.

Local Open Scope string_scope.
Local Open Scope list_scope.

(** ** Shared Python semantics *)

Module Py.

(** Outcome of evaluating a Python expression: a value or a raised exception
    (carried as its message, what [str(e)] gives a handler). *)
Inductive PyResult (A : Type) : Type :=
| Ok (a : A)
| Raised (exc : string).
Arguments Ok {A} a.
Arguments Raised {A} exc.

Definition bind {A B} (r : PyResult A) (k : A -> PyResult B) : PyResult B :=
  match r with
  | Ok a => k a
  | Raised e => Raised e
  end.

(** [xs[0]] *)
Definition item0 {A} (xs : list A) : PyResult A :=
  match xs with
  | x :: _ => Ok x
  | [] => Raised "list index out of range"
  end.

(** [xs[-1]] when the list is not empty. *)
Fixpoint item_last {A} (xs : list A) : option A :=
  match xs with
  | [] => None
  | [x] => Some x
  | _ :: rest => item_last rest
  end.

(** [x in xs] for a list of strings. *)
Definition in_list (x : string) (xs : list string) : bool :=
  existsb (String.eqb x) xs.

(** *** Characters *)

Definition code (c : ascii) : nat := nat_of_ascii c.

Definition between (lo hi : nat) (c : ascii) : bool :=
  (lo <=? code c)%nat && (code c <=? hi)%nat.

(** [str.lower] on one character: A-Z are mapped to a-z. *)
Definition lower_char (c : ascii) : ascii :=
  if between 65 90 c then ascii_of_nat (code c + 32) else c.

(** [str.lower] *)
Fixpoint lower (s : string) : string :=
  match s with
  | EmptyString => EmptyString
  | String c s' => String (lower_char c) (lower s')
  end.

(** White space as [str.isspace], [str.strip] and the [\s] of [re] see it:
    TAB, LF, VT, FF, CR, the separators FS, GS, RS, US, and the space. *)
Definition is_space (c : ascii) : bool :=
  between 9 13 c || between 28 31 c || (code c =? 32)%nat.

(** [\w]: letters, digits and the underscore. *)
Definition is_word (c : ascii) : bool :=
  between 48 57 c || between 65 90 c || between 97 122 c || (code c =? 95)%nat.

(** *** Substring test *)

(** [s.startswith(p)] *)
Fixpoint startswith (p s : string) : bool :=
  match p, s with
  | EmptyString, _ => true
  | String _ _, EmptyString => false
  | String a p', String b s' => Ascii.eqb a b && startswith p' s'
  end.

(** [sub in s] *)
Fixpoint contains (sub s : string) : bool :=
  match s with
  | EmptyString => startswith sub EmptyString
  | String _ s' => startswith sub s || contains sub s'
  end.

(** The meaning of [sub in s]: [sub] occurs in [s] as a contiguous run. *)
Definition Occurs (sub s : string) : Prop :=
  exists pre post, s = (pre ++ sub ++ post)%string.

(** *** Numbers *)

(** [int(x)] for a float [x]: truncation toward zero. *)
Definition int_of_float (x : Q) : Z :=
  Z.quot (Qnum x) (Zpos (Qden x)).

(** [str(n)] for an int. *)
Definition str_of_int (n : Z) : string :=
  DecimalString.NilZero.string_of_int (Z.to_int n).

Section Float.

(** Rounding of an exact result to the float that represents it. *)
Variable fl : Q -> Q.

Definition fadd (a b : Q) : Q := fl (a + b).
Definition fsub (a b : Q) : Q := fl (a - b).
Definition fmul (a b : Q) : Q := fl (a * b).
Definition fdiv (a b : Q) : Q := fl (a / b).

End Float.

(** Arithmetic without rounding error: the rounding operator of a run in
    which every intermediate result is representable. *)
Definition no_rounding (q : Q) : Q := q.

End Py.

Notation "x <- r ;; k" := (Py.bind r (fun x => k))
  (at level 61, r at next level, right associativity).

(** ** src/engine.py *)

Module Engine.
Import Py.

(** One gazetteer entry of locations.json: an object with the keys lat and
    lon. *)
Record Coords : Type := mkCoords { lat : Q; lon : Q }.

(** What the zero-shot pipeline returns: labels sorted by score, and the
    scores in the same order. *)
Record Classification : Type := mkClassification {
  labels : list string;
  scores : list Q
}.

(** The fields of a [RiskEngine] object.  [sector_rules] and [locations] are
    dicts loaded from JSON; a dict iterates in insertion order and its keys
    are distinct, so each is an association list in file order. *)
Record RiskEngine : Type := mkRiskEngine {
  classifier : string -> list string -> PyResult Classification;
  sector_rules : list (string * list string);
  locations : list (string * Coords);
  risk_labels : list string
}.

(** The label set fixed by [__init__]. *)
Definition default_risk_labels : list string :=
  [ "Critical Unrest"; "Natural Disaster"; "Economic Crisis";
    "Political Instability"; "Supply Chain Disruption";
    "Normal Business Operation"; "Positive Growth" ].

(** *** preprocess *)

(** The punctuation listed in the character class of the first [re.sub]:
    full stop, comma, exclamation mark, question mark, apostrophe, double
    quote and hyphen, by character code. *)
Definition is_punct (c : ascii) : bool :=
  existsb (Nat.eqb (code c)) [46; 44; 33; 63; 39; 34; 45]%nat.

(** Characters kept by the first [re.sub], whose class is the complement of
    word characters, white space and the punctuation above. *)
Definition permitted (c : ascii) : bool :=
  is_word c || is_space c || is_punct c.

Fixpoint sub_unpermitted (s : string) : string :=
  match s with
  | EmptyString => EmptyString
  | String c s' =>
      if permitted c then String c (sub_unpermitted s') else sub_unpermitted s'
  end.

(** The second [re.sub]: every maximal run of white space becomes one
    blank.  The scan goes left to right; [in_run] tells
    whether the previous character already belonged to the current run of
    white space (whose single replacement blank was emitted at its start). *)
Fixpoint sub_spaces_from (in_run : bool) (s : string) : string :=
  match s with
  | EmptyString => EmptyString
  | String c s' =>
      if is_space c
      then if in_run then sub_spaces_from true s'
           else String " " (sub_spaces_from true s')
      else String c (sub_spaces_from false s')
  end.

Definition sub_spaces (s : string) : string := sub_spaces_from false s.

Fixpoint lstrip (s : string) : string :=
  match s with
  | EmptyString => EmptyString
  | String c s' => if is_space c then lstrip s' else s
  end.

Fixpoint rstrip (s : string) : string :=
  match s with
  | EmptyString => EmptyString
  | String c s' =>
      match rstrip s' with
      | EmptyString => if is_space c then EmptyString else String c EmptyString
      | r => String c r
      end
  end.

(** [str.strip()] *)
Definition strip (s : string) : string := rstrip (lstrip s).

Section Preprocess.

(** [BeautifulSoup(text, html.parser).get_text(separator=blank)]: the
    visible text of the markup, a capability of the bs4 library. *)
Variable get_text : string -> string.

(** [text] is [None] or a [str]; [not text] holds of [None] and of the
    empty string. *)
Definition preprocess (text : option string) : string :=
  match text with
  | None => ""
  | Some EmptyString => ""
  | Some markup =>
      let text := get_text markup in
      let text := sub_unpermitted text in
      strip (sub_spaces text)
  end.

End Preprocess.

(** *** detect_sector *)

(** The inner loop [for word in keywords: if word in text_lower: return]:
    [true] when it returns. *)
Fixpoint any_keyword (keywords : list string) (text_lower : string) : bool :=
  match keywords with
  | [] => false
  | word :: rest =>
      if contains word text_lower then true else any_keyword rest text_lower
  end.

(** The outer loop over [sector_rules.items()]: the sector returned from
    inside the loop, if any. *)
Fixpoint scan_rules (rules : list (string * list string)) (text_lower : string)
  : option string :=
  match rules with
  | [] => None
  | (sector, keywords) :: rest =>
      if any_keyword keywords text_lower then Some sector
      else scan_rules rest text_lower
  end.

Definition detect_sector (self : RiskEngine) (text : string) : string :=
  let text_lower := lower text in
  match scan_rules (sector_rules self) text_lower with
  | Some sector => sector
  | None => "GENERAL"
  end.

(** *** detect_future_event *)

Definition future_keywords : list string :=
  [ "scheduled"; "tomorrow"; "next week"; "planned"; "to be"; "upcoming";
    "postponed"; "will be"; "expected" ].

Definition detect_future_event (text : string) : Z :=
  let text_lower := lower text in
  if any_keyword future_keywords text_lower then 1%Z else 0%Z.

(** *** analyze_risk *)

Section AnalyzeRisk.

(** Rounding of float arithmetic, see [Py.fadd]. *)
Variable fl : Q -> Q.

Definition critical_labels : list string :=
  [ "Critical Unrest"; "Natural Disaster"; "Supply Chain Disruption" ].

Definition warning_labels : list string :=
  [ "Economic Crisis"; "Political Instability" ].

Definition analyze_risk (self : RiskEngine) (text : string)
  : PyResult (string * Z) :=
  result <- classifier self text (risk_labels self) ;;
  top_label <- item0 (labels result) ;;
  confidence <- item0 (scores result) ;;
  if in_list top_label critical_labels then
    let score := int_of_float (fadd fl 80 (fmul fl confidence 20)) in
    Ok ("Critical", score)
  else if in_list top_label warning_labels then
    let score := int_of_float (fadd fl 50 (fmul fl confidence 29)) in
    Ok ("Warning", score)
  else if String.eqb top_label "Positive Growth" then
    Ok ("Opportunity", 0%Z)
  else
    Ok ("Info", 10%Z).

End AnalyzeRisk.

(** *** get_location *)

(** The loop over [locations.items()]; the function returns a pair, each
    component a float or [None]. *)
Fixpoint scan_locations (locs : list (string * Coords)) (text : string)
  : option Q * option Q :=
  match locs with
  | [] => (None, None)
  | (city, coords) :: rest =>
      if contains city text then (Some (lat coords), Some (lon coords))
      else scan_locations rest text
  end.

Definition get_location (self : RiskEngine) (text : string)
  : option Q * option Q :=
  scan_locations (locations self) text.

End Engine.

(** ** src/database.py *)

Module Database.
Import Py.

(** The dict handed to [save_article], one value per named SQL parameter.
    [link] is the string [process_feed] read from the entry. *)
Record Article : Type := mkArticle {
  title : string;
  link : string;
  published : string;
  source : string;
  category : string;
  risk_score : Z;
  sector : string;
  lat : option Q;
  lon : option Q;
  is_upcoming : Z
}.

(** A row of the table [articles]: the autoincremented [id] and the
    inserted columns. *)
Record Row : Type := mkRow { id : Z; data : Article }.

(** The database file: the rows of [articles] in insertion order and the
    counter SQLite keeps for AUTOINCREMENT. *)
Record Store : Type := mkStore {
  articles : list Row;
  sqlite_sequence : Z
}.

(** The store right after [initialize]. *)
Definition empty_store : Store := mkStore [] 0.

(** What the storage layer does to one call of [save_article]. *)
Inductive Fault : Type :=
| NoFault
| ConnectFails (msg : string)
| ExecuteFails (msg : string)
| CommitFails (msg : string).

(** The mutable world of the process: the database file, what was printed,
    and the storage faults still to come (one per call of [save_article];
    none once the list is empty). *)
Record World : Type := mkWorld {
  store : Store;
  stdout : list string;
  faults : list Fault
}.

Definition print (line : string) (w : World) : World :=
  mkWorld (store w) (stdout w ++ [line]) (faults w).

Definition set_store (st : Store) (w : World) : World :=
  mkWorld st (stdout w) (faults w).

Definition next_fault (w : World) : Fault * World :=
  match faults w with
  | [] => (NoFault, w)
  | f :: rest => (f, mkWorld (store w) (stdout w) rest)
  end.

(** Does a row with this [link] exist (the UNIQUE constraint's test)? *)
Definition has_link (l : string) (rows : list Row) : bool :=
  existsb (fun r => String.eqb (link (data r)) l) rows.

(** [INSERT OR IGNORE INTO articles (...) VALUES (...)]: the table after
    the statement and [rowcount]. *)
Definition insert_or_ignore (st : Store) (d : Article) : Store * Z :=
  if has_link (link d) (articles st) then (st, 0%Z)
  else
    let new_id := (sqlite_sequence st + 1)%Z in
    (mkStore (articles st ++ [mkRow new_id d]) new_id, 1%Z).

Definition save_article (d : Article) (w : World) : PyResult bool * World :=
  let (fault, w) := next_fault w in
  (* conn = self._get_connection(), outside the try *)
  match fault with
  | ConnectFails msg => (Raised msg, w)
  | _ =>
      (* try: execute, return rowcount > 0; except: print, return False *)
      let '(result, pending, w) :=
        match fault with
        | ExecuteFails msg =>
            (false, store w, print ("DB Error: " ++ msg) w)
        | _ =>
            let (st, rowcount) := insert_or_ignore (store w) d in
            ((0 <? rowcount)%Z, st, w)
        end in
      (* finally: conn.commit(); conn.close() *)
      match fault with
      | CommitFails msg => (Raised msg, w)
      | _ => (Ok result, set_store pending w)
      end
  end.

(** *** Statements run against the world *)

Definition IO (A : Type) : Type := World -> PyResult A * World.

Definition ret {A} (a : A) : IO A := fun w => (Ok a, w).

Definition raise {A} (e : string) : IO A := fun w => (Raised e, w).

Definition lift {A} (r : PyResult A) : IO A := fun w => (r, w).

Definition bindIO {A B} (m : IO A) (k : A -> IO B) : IO B :=
  fun w =>
    match m w with
    | (Ok a, w') => k a w'
    | (Raised e, w') => (Raised e, w')
    end.

(** [try: body  except Exception as e: handler(e)]; every exception of the
    model is an [Exception]. *)
Definition try_except {A} (body : IO A) (handler : string -> IO A) : IO A :=
  fun w =>
    match body w with
    | (Ok a, w') => (Ok a, w')
    | (Raised e, w') => handler e w'
    end.

(** [for x in xs: body(x)] *)
Fixpoint for_each {A} (xs : list A) (body : A -> IO unit) : IO unit :=
  match xs with
  | [] => ret tt
  | x :: rest => bindIO (body x) (fun _ => for_each rest body)
  end.

End Database.

Notation "x <~ m ;; k" := (Database.bindIO m (fun x => k))
  (at level 61, m at next level, right associativity).

(** ** Configuration: [load_config] and [reload_config] of src/engine.py *)

Module Config.
Import Py Database.

(** What opening a file and parsing it as JSON comes to: the parsed value,
    a FileNotFoundError, or any other exception (unreadable file, text that
    is not JSON). *)
Inductive FileRead (A : Type) : Type :=
| Loaded (a : A)
| FileNotFound
| Unreadable (msg : string).
Arguments Loaded {A} a.
Arguments FileNotFound {A}.
Arguments Unreadable {A} msg.

(** The object under the key app_settings; a key the file does not have
    is [None]. *)
Record AppSettings : Type := mkAppSettings {
  refresh_interval_seconds : option Z;
  sources_file : option string
}.

(** The object of config.json. *)
Record Settings : Type := mkSettings {
  sector_logic : option (list (string * list string));
  app_settings : option AppSettings
}.

(** The dict [load_config] returns when config.json is missing. *)
Definition default_settings : Settings :=
  mkSettings (Some [])
    (Some (mkAppSettings (Some 300%Z) (Some "config/locations.json"))).

(** [d[key]] *)
Definition item {A} (key : string) (v : option A) : IO A :=
  match v with
  | Some a => ret a
  | None => raise ("'" ++ key ++ "'")
  end.

(** [os.path.join("config", name)] on POSIX. *)
Definition join_config (name : string) : string :=
  if startswith "/" name then name else "config/" ++ name.

Section Files.

(** The files of the working directory, as reading each one turns out. *)
Variable config_json : FileRead Settings.
Variable locations_json : FileRead (list (string * Engine.Coords)).

Definition load_config : IO Settings :=
  match config_json with
  | Loaded config => ret config
  | FileNotFound =>
      fun w => (Ok default_settings, print "Warning: config.json not found" w)
  | Unreadable msg => raise msg
  end.

(** [RiskEngine.reload_config]: the engine with its rules and locations
    replaced.  Any failure on locations.json leaves an empty gazetteer. *)
Definition reload_config (self : Engine.RiskEngine) : IO Engine.RiskEngine :=
  config <~ load_config ;;
  let rules := match sector_logic config with Some r => r | None => [] end in
  let locs := match locations_json with Loaded l => l | _ => [] end in
  ret (Engine.mkRiskEngine (Engine.classifier self) rules locs
         (Engine.risk_labels self)).

End Files.

End Config.

(** ** src/pipeline.py *)

Module Pipeline.
Import Py.
Import Database.

(** One entry of a parsed feed; an attribute the feed did not supply is
    [None], and reading it as [entry.title] or [entry.link] raises. *)
Record Entry : Type := mkEntry {
  entry_title : option string;
  entry_link : option string;
  entry_published : option string
}.

Record Feed : Type := mkFeed { entries : list Entry }.

(** One element of the source list: [{name, url}]. *)
Record Source : Type := mkSource { name : string; url : string }.

(** [getattr] of an entry attribute. *)
Definition attr (attribute : string) (v : option string) : IO string :=
  match v with
  | Some s => ret s
  | None => raise ("object has no attribute '" ++ attribute ++ "'")
  end.

(** [s[:n]] *)
Definition slice_to (n : nat) (s : string) : string := substring 0 n s.

Section Pipeline.

Variable get_text : string -> string.
Variable fl : Q -> Q.

(** [feedparser.parse(url)] *)
Variable parse : string -> PyResult Feed.

(** [self.engine] *)
Variable engine : Engine.RiskEngine.

(** The body of [for entry in feed.entries[:5]]. *)
Definition process_entry (source_config : Source) (entry : Entry) : IO unit :=
  raw_title <~ attr "title" (entry_title entry) ;;
  let clean_title := Engine.preprocess get_text (Some raw_title) in
  analysis <~ lift (Engine.analyze_risk fl engine clean_title) ;;
  let '(category, risk) := analysis in
  let sector := Engine.detect_sector engine clean_title in
  let '(lat, lon) := Engine.get_location engine clean_title in
  let is_upcoming := Engine.detect_future_event clean_title in
  entry_link <~ attr "link" (entry_link entry) ;;
  let article_data :=
    mkArticle clean_title entry_link
      (match entry_published entry with Some p => p | None => "Unknown" end)
      (name source_config) category risk sector lat lon is_upcoming in
  saved <~ save_article article_data ;;
  if (saved : bool) then
    fun w =>
      (Ok tt,
       print ("[" ++ sector ++ "] Risk:" ++ str_of_int risk ++ "% -> "
                  ++ slice_to 40 clean_title ++ "...") w)
  else ret tt.

(** What [process_feed] runs inside its [try]. *)
Definition process_feed_body (source_config : Source) : IO unit :=
  feed <~ lift (parse (url source_config)) ;;
  match entries feed with
  | [] => ret tt
  | _ => for_each (firstn 5 (entries feed)) (process_entry source_config)
  end.

Definition process_feed (source_config : Source) : IO unit :=
  try_except (process_feed_body source_config)
    (fun e w =>
       (Ok tt,
        print (" Error processing " ++ name source_config ++ ": " ++ e) w)).

(** The loop [for source in feed_list: self.process_feed(source)] of one
    cycle of [run]. *)
Definition run_sources (feed_list : list Source) : IO unit :=
  for_each feed_list process_feed.

End Pipeline.

(** *** One cycle of [run] *)

Section Run.

Variable get_text : string -> string.
Variable fl : Q -> Q.
Variable parse : string -> PyResult Feed.

(** The files read at the start of a cycle; the sources file is looked up
    by its path. *)
Variable config_json : Config.FileRead Config.Settings.
Variable locations_json : Config.FileRead (list (string * Engine.Coords)).
Variable sources_json : string -> Config.FileRead (list Source).

(** The body of [while True], from the reload to the sleep: the engine as
    reloaded and the number of seconds slept. *)
Definition run_cycle (engine : Engine.RiskEngine)
  : IO (Engine.RiskEngine * Z) :=
  config <~ Config.load_config config_json ;;
  engine <~ Config.reload_config config_json locations_json engine ;;
  settings <~ Config.item "app_settings" (Config.app_settings config) ;;
  name <~ Config.item "sources_file" (Config.sources_file settings) ;;
  let sources_file := Config.join_config name in
  feed_list <~
    match sources_json sources_file with
    | Config.Loaded feed_list => ret feed_list
    | Config.FileNotFound =>
        fun w =>
          (Ok [], print ("Error: " ++ sources_file ++ " not found.") w)
    | Config.Unreadable msg => raise msg
    end ;;
  _ <~ run_sources get_text fl parse engine feed_list ;;
  interval <~
    Config.item "refresh_interval_seconds"
      (Config.refresh_interval_seconds settings) ;;
  fun w =>
    (Ok (engine, interval),
     print ("--- Analyzing... (Refresh in " ++ str_of_int interval
              ++ "s) ---") w).

(** [cycles] turns of the loop, ended early by an exception. *)
Fixpoint run_cycles (cycles : nat) (engine : Engine.RiskEngine)
  : IO Engine.RiskEngine :=
  match cycles with
  | O => ret engine
  | S k =>
      turn <~ run_cycle engine ;;
      run_cycles k (fst turn)
  end.

End Run.

End Pipeline.

(** ** src/analytics.py *)

Module Analytics.
Import Py.

(** One row of the DataFrame [self.df]: the columns of [articles] and the
    parsed [published_dt].  A cell that pandas holds as NaN, or NaT for a
    timestamp, is [None].  Timestamps count nanoseconds since the epoch. *)
Record DfRow : Type := mkDfRow {
  id : Z;
  title : string;
  link : string;
  category : string;
  risk_score : option Z;
  sector : string;
  lat : option Q;
  lon : option Q;
  is_upcoming : Z;
  published_dt : option Z
}.

Definition DataFrame : Type := list DfRow.

(** [self._get_data(sector)]; [sector] is [None] or a [str]. *)
Definition _get_data (df : DataFrame) (sector_filter : option string)
  : DataFrame :=
  match sector_filter with
  | None => df
  | Some EmptyString => df
  | Some s =>
      if String.eqb s "All" then df
      else filter (fun r => String.eqb (sector r) s) df
  end.

(** [df.empty] *)
Definition empty (df : DataFrame) : bool :=
  match df with [] => true | _ => false end.

(** The cells of a column that are not NaN. *)
Fixpoint dropna (cells : list (option Z)) : list Z :=
  match cells with
  | [] => []
  | Some v :: rest => v :: dropna rest
  | None :: rest => dropna rest
  end.

Definition sum (vs : list Z) : Z := fold_right Z.add 0%Z vs.

Definition len {A} (xs : list A) : Z := Z.of_nat (List.length xs).

Definition notna {A} (cell : option A) : bool :=
  match cell with Some _ => true | None => false end.

Definition hours (n : Z) : Z := (n * 3600000000000)%Z.

Section Analytics.

Variable fl : Q -> Q.

(** [Series.mean()]: NaN cells are skipped; the mean of no cell is NaN.
    The sum of integer scores is exact, the division rounds. *)
Definition mean (cells : list (option Z)) : option Q :=
  match dropna cells with
  | [] => None
  | vs => Some (fdiv fl (inject_Z (sum vs)) (inject_Z (len vs)))
  end.

(** [df['risk_score'] > k] on one row; a NaN compares false. *)
Definition score_gt (k : Z) (r : DfRow) : bool :=
  match risk_score r with
  | Some v => (k <? v)%Z
  | None => false
  end.

(** [now] is [pd.Timestamp.now(tz='UTC')]. *)
Definition get_national_indicators (now : Z) (self_df : DataFrame)
  (sector_filter : option string) : Z * Z * Z :=
  let df := _get_data self_df sector_filter in
  if empty df then (0, 0, 0)%Z
  else
    let avg_risk := mean (map risk_score (firstn 50 df)) in
    let stability :=
      match avg_risk with
      | Some avg => int_of_float (fsub fl 100 avg)
      | None => (100 - 0)%Z
      end in
    let crit_count := len (filter (score_gt 80) df) in
    let volume :=
      if existsb (fun r => notna (published_dt r)) df then
        let last_24h :=
          filter (fun r =>
                    match published_dt r with
                    | Some t => (now - hours 24 <? t)%Z
                    | None => false
                    end) df in
        len last_24h
      else len df in
    (stability, crit_count, volume).

(** *** get_forecast *)

(** The rows that carry a timestamp, as (timestamp, score cell); resample
    leaves the NaT rows out of every bucket. *)
Fixpoint timed (df : DataFrame) : list (Z * option Z) :=
  match df with
  | [] => []
  | r :: rest =>
      match published_dt r with
      | Some t => (t, risk_score r) :: timed rest
      | None => timed rest
      end
  end.

(** Start of the hour a timestamp falls in. *)
Definition floor_hour (t : Z) : Z := (t / hours 1 * hours 1)%Z.

Definition minimum (t : Z) (ts : list Z) : Z := fold_right Z.min t ts.
Definition maximum (t : Z) (ts : list Z) : Z := fold_right Z.max t ts.

(** The [count] hourly labels from [first] on. *)
Fixpoint hour_labels (first : Z) (count : nat) : list Z :=
  match count with
  | O => []
  | S k => first :: hour_labels (first + hours 1)%Z k
  end.

(** Mean score of the bucket that starts at [label], NaN filled with 0. *)
Definition bucket_mean (cells : list (Z * option Z)) (label : Z) : Q :=
  let inside :=
    filter (fun c => (label <=? fst c)%Z && (fst c <? label + hours 1)%Z)
      cells in
  match mean (map snd inside) with
  | Some m => m
  | None => 0
  end.

(** [trend_df['risk_score'].resample('H').mean().fillna(0)]: one bucket per
    hour from the hour of the earliest timestamp to the hour of the latest,
    as (label, value). *)
Definition resample_hourly (cells : list (Z * option Z)) : list (Z * Q) :=
  match map fst cells with
  | [] => []
  | t :: ts =>
      let first := floor_hour (minimum t ts) in
      let last := floor_hour (maximum t ts) in
      let count := S (Z.to_nat ((last - first) / hours 1)) in
      map (fun label => (label, bucket_mean cells label))
        (hour_labels first count)
  end.

Definition qsum (qs : list Q) : Q := fold_right Qplus 0 qs.

(** [np.arange(lo, lo + count)] *)
Fixpoint arange (lo : Z) (count : nat) : list Z :=
  match count with
  | O => []
  | S k => lo :: arange (lo + 1)%Z k
  end.

(** [LinearRegression().fit(X, y)] on [X = 0 .. len(y)-1]: the least
    squares line, as (slope, intercept), solved exactly. *)
Definition fit (y : list Q) : Q * Q :=
  let n := inject_Z (len y) in
  let xs := map inject_Z (arange 0 (List.length y)) in
  let x_mean := qsum xs / n in
  let y_mean := qsum y / n in
  let sxy := qsum (map (fun p => (fst p - x_mean) * (snd p - y_mean))
                     (combine xs y)) in
  let sxx := qsum (map (fun x => (x - x_mean) * (x - x_mean)) xs) in
  let slope := sxy / sxx in
  (slope, y_mean - slope * x_mean).

Definition predict (model : Q * Q) (xs : list Z) : list Q :=
  map (fun x => snd model + fst model * inject_Z x) xs.

(** One row of the chart: its index and the two columns. *)
Record ChartRow : Type := mkChartRow {
  at_time : Z;
  actual_trend : option Q;
  ai_forecast : option Q
}.

(** [series[label]] when the label is in the index of the series. *)
Fixpoint lookup (label : Z) (series : list (Z * Q)) : option Q :=
  match series with
  | [] => None
  | (l, v) :: rest => if (l =? label)%Z then Some v else lookup label rest
  end.

(** [chart_df.loc[label, 'AI Forecast'] = value] *)
Definition set_forecast (label : Z) (value : Q) (chart : list ChartRow)
  : list ChartRow :=
  map (fun row =>
         if (at_time row =? label)%Z
         then mkChartRow (at_time row) (actual_trend row) (Some value)
         else row) chart.

(** [chart_df.loc[labels, 'AI Forecast'] = values] *)
Fixpoint set_forecasts (labels : list Z) (values : list Q)
  (chart : list ChartRow) : list ChartRow :=
  match labels, values with
  | l :: ls, v :: vs => set_forecasts ls vs (set_forecast l v chart)
  | _, _ => chart
  end.

(** A loaded frame always has the column [published_dt], and [resample] is
    taken not to raise, so of the guards only the emptiness, the missing
    timestamps and the bucket count remain. *)
Definition get_forecast (self_df : DataFrame) (sector_filter : option string)
  : option (list ChartRow) :=
  let df := _get_data self_df sector_filter in
  if empty df then None
  else if negb (existsb (fun r => notna (published_dt r)) df) then None
  else
    let history := resample_hourly (timed df) in
    if (len history <? 3)%Z then None
    else
      let y := map snd history in
      let model := fit y in
      let next_X := arange (len y) 4 in
      let predictions := predict model next_X in
      match item_last history with
      | None => None
      | Some (last_date, last_value) =>
          let future_dates :=
            map (fun i => (last_date + hours (i + 1))%Z) (arange 0 4) in
          (* history.index.union(future_dates): the future dates all lie
             after the index, so the sorted union is the concatenation *)
          let full_index := map fst history ++ future_dates in
          let chart_df :=
            map (fun t => mkChartRow t (lookup t history) None) full_index in
          let chart_df := set_forecast last_date last_value chart_df in
          let chart_df := set_forecasts future_dates predictions chart_df in
          Some chart_df
      end.

(** *** The other views *)




Definition tracked_sectors : list string :=
  ["INFRASTRUCTURE"; "LOGISTICS"; "FINANCE"; "LABOR"; "SOCIETY"; "EVENTS"].

(** The loop [for sec in sectors] of [get_sector_status]; [status] is the
    dict filled so far, in insertion order.  [int] of a NaN mean raises. *)
Fixpoint sector_status_loop (self_df : DataFrame) (sectors : list string)
  (status : list (string * Z)) : PyResult (list (string * Z)) :=
  match sectors with
  | [] => Ok status
  | sec :: rest =>
      let sec_data := filter (fun r => String.eqb (sector r) sec) self_df in
      if empty sec_data
      then sector_status_loop self_df rest (status ++ [(sec, 0%Z)])
      else
        match mean (map risk_score (firstn 10 sec_data)) with
        | Some avg =>
            sector_status_loop self_df rest
              (status ++ [(sec, int_of_float avg)])
        | None => Raised "cannot convert float NaN to integer"
        end
  end.

Definition get_sector_status (self_df : DataFrame)
  : PyResult (list (string * Z)) :=
  if empty self_df then Ok []
  else sector_status_loop self_df tracked_sectors [].

Definition get_upcoming_events (self_df : DataFrame)
  (sector_filter : option string) : DataFrame :=
  let df := _get_data self_df sector_filter in
  if empty df then []
  else firstn 5 (filter (fun r => (is_upcoming r =? 1)%Z) df).

(** [df.dropna(subset=['lat', 'lon'])] *)
Definition get_map_data (self_df : DataFrame) (sector_filter : option string)
  : DataFrame :=
  let df := _get_data self_df sector_filter in
  if empty df then []
  else filter (fun r => notna (lat r) && notna (lon r)) df.

End Analytics.

(** *** Loading the frame from the store *)

Section Loading.

(** [pd.to_datetime(text, utc=True, errors='coerce')] on one cell: the
    timestamp, or NaT for a text that is no date. *)
Variable to_datetime : string -> option Z.

(** One result row of [SELECT * FROM articles], with [published_dt]
    added; of the columns, those the views read. *)
Definition to_row (r : Database.Row) : DfRow :=
  let d := Database.data r in
  mkDfRow (Database.id r) (Database.title d) (Database.link d)
    (Database.category d) (Some (Database.risk_score d)) (Database.sector d)
    (Database.lat d) (Database.lon d) (Database.is_upcoming d)
    (to_datetime (Database.published d)).

(** [ORDER BY id DESC], by insertion into a list kept in that order. *)
Fixpoint insert_desc (r : Database.Row) (sorted : list Database.Row)
  : list Database.Row :=
  match sorted with
  | [] => [r]
  | x :: rest =>
      if (Database.id x <? Database.id r)%Z then r :: sorted
      else x :: insert_desc r rest
  end.

Definition order_by_id_desc (rows : list Database.Row) : list Database.Row :=
  fold_right insert_desc [] rows.

(** [LIMIT n]; SQLite takes a negative [n] for no limit. *)
Definition sql_limit {A} (n : Z) (rows : list A) : list A :=
  if (n <? 0)%Z then rows else firstn (Z.to_nat n) rows.

(** [NewsDatabase.fetch_latest(limit)] of src/database.py. *)
Definition fetch_latest (st : Database.Store) (limit : Z) : DataFrame :=
  map to_row (sql_limit limit (order_by_id_desc (Database.articles st))).

(** [load_data]: the new [self.df] and the value returned. *)
Definition load_data (st : Database.Store) : DataFrame * bool :=
  let df := fetch_latest st 1000 in
  (df, negb (empty df)).

End Loading.

End Analytics.

(** * Properties *)

(** ** Strings *)

Module PyFacts.
Import Py.

Lemma startswith_spec (p s : string) :
  startswith p s = true <-> exists post, s = (p ++ post)%string.
Proof.
  revert s; induction p as [|a p IH]; intros s; simpl.
  - split; [intros _; now exists s | reflexivity].
  - destruct s as [|b s]; simpl.
    + split; [discriminate | intros [post H]; discriminate].
    + rewrite andb_true_iff, Ascii.eqb_eq, IH. split.
      * intros [-> [post ->]]. now exists post.
      * intros [post H]. injection H as -> ->. split; [reflexivity | now exists post].
Qed.

Lemma contains_spec (sub s : string) :
  contains sub s = true <-> Occurs sub s.
Proof.
  unfold Occurs. induction s as [|c s IH]; simpl.
  - rewrite startswith_spec. split.
    + intros [post H]. exists "", post. exact H.
    + intros [pre [post H]]. destruct pre; [|discriminate].
      exists post. exact H.
  - rewrite orb_true_iff, IH, startswith_spec. split.
    + intros [[post H] | [pre [post H]]].
      * exists "", post. exact H.
      * exists (String c pre), post. simpl. now rewrite H.
    + intros [pre [post H]]. destruct pre as [|c' pre]; simpl in H.
      * left. now exists post.
      * right. injection H as _ H. now exists pre, post.
Qed.

Lemma contains_false (sub s : string) :
  contains sub s = false <-> ~ Occurs sub s.
Proof.
  rewrite <- contains_spec. destruct (contains sub s); split; intros H;
    try reflexivity; try discriminate; try (intros H'; discriminate).
  exfalso. now apply H.
Qed.

End PyFacts.

(** ** The classification engine *)

Module EngineSpec.
Import Py PyFacts Engine.

(** A rule fires on a lower-cased text when one of its keywords occurs in
    it, compared character by character. *)
Definition rule_fires (text_lower : string) (rule : string * list string)
  : Prop :=
  exists word, In word (snd rule) /\ Occurs word text_lower.

Lemma any_keyword_spec (keywords : list string) (text_lower sector : string) :
  any_keyword keywords text_lower = true <->
  rule_fires text_lower (sector, keywords).
Proof.
  unfold rule_fires; simpl. induction keywords as [|w ws IH]; simpl.
  - split; [discriminate | intros [word [[] _]]].
  - destruct (contains w text_lower) eqn:E.
    + split; [|reflexivity]. intros _. exists w. split; [now left|].
      now apply contains_spec.
    + rewrite IH. split.
      * intros [word [Hin Hocc]]. exists word. split; [now right | exact Hocc].
      * intros [word [[<- | Hin] Hocc]].
        -- apply contains_false in E. contradiction.
        -- now exists word.
Qed.

Lemma scan_rules_none (rules : list (string * list string)) (t : string) :
  (forall rule, In rule rules -> ~ rule_fires t rule) ->
  scan_rules rules t = None.
Proof.
  induction rules as [|[sector keywords] rest IH]; intros H; simpl.
  - reflexivity.
  - destruct (any_keyword keywords t) eqn:E.
    + exfalso. apply (H (sector, keywords)); [now left|].
      now apply any_keyword_spec.
    + apply IH. intros rule Hin. apply H. now right.
Qed.

Lemma scan_rules_first before sector keywords after (t : string) :
  (forall rule, In rule before -> ~ rule_fires t rule) ->
  rule_fires t (sector, keywords) ->
  scan_rules (before ++ (sector, keywords) :: after) t = Some sector.
Proof.
  induction before as [|[s k] rest IH]; intros Hnone Hfire; simpl.
  - apply (any_keyword_spec keywords t sector) in Hfire. now rewrite Hfire.
  - destruct (any_keyword k t) eqn:E.
    + exfalso. apply (Hnone (s, k)); [now left|].
      now apply any_keyword_spec.
    + apply IH; [|exact Hfire]. intros rule Hin. apply Hnone. now right.
Qed.

(** C4 (as amended): [detect_sector] scans the rules in their declared
    order and returns the first sector one of whose keywords occurs, as
    written, in the lower-cased text; when no rule has such a keyword it
    returns GENERAL.  Being a function of the rules and the text, the result
    is deterministic, and an earlier firing rule wins over any later one. *)
Theorem detect_sector_first_rule_wins (self : RiskEngine) (text : string) :
  ((forall rule, In rule (sector_rules self) ->
      ~ rule_fires (lower text) rule) ->
   detect_sector self text = "GENERAL")
  /\
  (forall before sector keywords after,
      sector_rules self = before ++ (sector, keywords) :: after ->
      (forall rule, In rule before -> ~ rule_fires (lower text) rule) ->
      rule_fires (lower text) (sector, keywords) ->
      detect_sector self text = sector).
Proof.
  unfold detect_sector. split.
  - intros H. now rewrite scan_rules_none.
  - intros before sector keywords after -> Hnone Hfire.
    now rewrite scan_rules_first.
Qed.

(** The claim as the specification words it: a keyword counts when it
    occurs in the text up to letter case. *)
Definition rule_fires_ignoring_case (text : string)
  (rule : string * list string) : Prop :=
  exists word, In word (snd rule) /\ Occurs (lower word) (lower text).

Definition detect_sector_ignores_case : Prop :=
  forall (self : RiskEngine) (text : string) before sector keywords after,
    sector_rules self = before ++ (sector, keywords) :: after ->
    (forall rule, In rule before -> ~ rule_fires_ignoring_case text rule) ->
    rule_fires_ignoring_case text (sector, keywords) ->
    detect_sector self text = sector.

Definition one_rule_engine : RiskEngine :=
  mkRiskEngine
    (fun _ _ => Ok (mkClassification ["Critical Unrest"] [95 # 100]))
    [("INFRASTRUCTURE", ["Riot"])]
    [("Colombo", mkCoords (69 # 10) (798 # 10))]
    default_risk_labels.

(** C4, counterexample: with the single rule INFRASTRUCTURE: [Riot], the
    text "Riot in Colombo" contains the keyword, yet [detect_sector] answers
    GENERAL: only the text is lower-cased, the keyword is compared as
    written. *)
Lemma detect_sector_keyword_case_matters : ~ detect_sector_ignores_case.
Proof.
  intros claim.
  specialize (claim one_rule_engine "Riot in Colombo"
                [] "INFRASTRUCTURE" ["Riot"] [] eq_refl).
  assert (H : detect_sector one_rule_engine "Riot in Colombo" = "INFRASTRUCTURE").
  { apply claim.
    - intros rule [].
    - exists "Riot". split; [now left|]. exists "", " in colombo". reflexivity. }
  vm_compute in H. discriminate H.
Qed.

(** C10: on [None] and on the empty string [preprocess] returns the empty
    string, whatever the HTML parser would do: it is never called. *)
Theorem preprocess_missing_text (get_text : string -> string) :
  preprocess get_text None = "" /\ preprocess get_text (Some "") = "".
Proof.
  split; reflexivity.
Qed.

(** *** Score bands of [analyze_risk] *)

Lemma in_list_spec (x : string) (xs : list string) :
  in_list x xs = true <-> In x xs.
Proof.
  unfold in_list. rewrite existsb_exists. split.
  - intros [y [Hin Heq]]. apply String.eqb_eq in Heq. now subst.
  - intros Hin. exists x. split; [exact Hin | apply String.eqb_refl].
Qed.

Lemma Qeq_Qle (a b : Q) : a == b -> a <= b.
Proof.
  intros H. rewrite H. apply Qle_refl.
Qed.

Lemma int_of_float_nonneg (x : Q) : 0 <= x -> int_of_float x = Qfloor x.
Proof.
  destruct x as [n d]. unfold Qle, int_of_float, Qfloor; simpl. intros H.
  apply Z.quot_div_nonneg; lia.
Qed.

(** The category and score bands of the classification policy. *)
Definition in_band (category : string) (score : Z) : Prop :=
  (category = "Critical" /\ (80 <= score <= 100)%Z) \/
  (category = "Warning" /\ (50 <= score <= 79)%Z) \/
  (category = "Opportunity" /\ score = 0%Z) \/
  (category = "Info" /\ score = 10%Z).

Lemma bands_disjoint (c1 c2 : string) (score : Z) :
  in_band c1 score -> in_band c2 score -> c1 = c2.
Proof.
  unfold in_band.
  intros [[-> H1] | [[-> H1] | [[-> H1] | [-> H1]]]]
         [[-> H2] | [[-> H2] | [[-> H2] | [-> H2]]]];
    try reflexivity; exfalso; lia.
Qed.

Lemma critical_not_warning (L : string) :
  In L critical_labels -> In L warning_labels -> False.
Proof.
  simpl. intuition (subst; discriminate).
Qed.

Lemma positive_not_critical : ~ In "Positive Growth" critical_labels.
Proof.
  simpl. intuition discriminate.
Qed.

Lemma positive_not_warning : ~ In "Positive Growth" warning_labels.
Proof.
  simpl. intuition discriminate.
Qed.

Section RiskBands.

Variable fl : Q -> Q.

(** What the theorems ask of float rounding: it is monotone, and an
    integer a double holds exactly is left alone. *)
Hypothesis fl_monotone : forall a b : Q, a <= b -> fl a <= fl b.
Hypothesis fl_integer :
  forall z : Z, (Z.abs z <= 2 ^ 53)%Z -> fl (inject_Z z) == inject_Z z.

Lemma fl_between (lo hi : Z) (x : Q) :
  (Z.abs lo <= 2 ^ 53)%Z -> (Z.abs hi <= 2 ^ 53)%Z ->
  inject_Z lo <= x <= inject_Z hi ->
  inject_Z lo <= fl x <= inject_Z hi.
Proof.
  intros Hlo Hhi [H1 H2]. split.
  - apply Qle_trans with (fl (inject_Z lo)).
    + apply Qeq_Qle. symmetry. now apply fl_integer.
    + now apply fl_monotone.
  - apply Qle_trans with (fl (inject_Z hi)).
    + now apply fl_monotone.
    + apply Qeq_Qle. now apply fl_integer.
Qed.

(** [int(base + c * k)] for a confidence [c] between 0 and 1. *)
Lemma scaled_score (base k : Z) (c : Q) :
  (0 <= base)%Z -> (0 <= k)%Z -> (base + k <= 2 ^ 53)%Z ->
  0 <= c <= 1 ->
  int_of_float (fadd fl (base # 1) (fmul fl c (k # 1)))
  = Qfloor (fadd fl (base # 1) (fmul fl c (k # 1))) /\
  (base <= Qfloor (fadd fl (base # 1) (fmul fl c (k # 1))) <= base + k)%Z.
Proof.
  intros Hb Hk Hsum [Hc0 Hc1].
  change (base # 1) with (inject_Z base). change (k # 1) with (inject_Z k).
  set (x := fadd fl (inject_Z base) (fmul fl c (inject_Z k))).
  assert (Hk' : 0 <= inject_Z k) by (change 0 with (inject_Z 0); now rewrite <- Zle_Qle).
  assert (Hm : inject_Z 0 <= fmul fl c (inject_Z k) <= inject_Z k).
  { apply fl_between; try lia. split.
    - now apply Qmult_le_0_compat.
    - rewrite <- (Qmult_1_l (inject_Z k)) at 2.
      now apply Qmult_le_compat_r. }
  assert (Hx : inject_Z base <= x <= inject_Z (base + k)).
  { apply fl_between; try lia. rewrite inject_Z_plus. split.
    - rewrite <- (Qplus_0_r (inject_Z base)) at 1.
      apply Qplus_le_compat; [apply Qle_refl | apply Hm].
    - apply Qplus_le_compat; [apply Qle_refl | apply Hm]. }
  destruct Hx as [Hx1 Hx2]. split.
  - apply int_of_float_nonneg. apply Qle_trans with (inject_Z base); [|exact Hx1].
    change 0 with (inject_Z 0). now rewrite <- Zle_Qle.
  - split.
    + rewrite <- (Qfloor_Z base). now apply Qfloor_resp_le.
    + rewrite <- (Qfloor_Z (base + k)). now apply Qfloor_resp_le.
Qed.

Lemma analyze_risk_in_band (self : RiskEngine) (text L : string)
  (ls : list string) (c : Q) (cs : list Q) (category : string) (score : Z) :
  classifier self text (risk_labels self)
    = Ok (mkClassification (L :: ls) (c :: cs)) ->
  0 <= c <= 1 ->
  analyze_risk fl self text = Ok (category, score) ->
  in_band category score.
Proof.
  intros Hcls Hc. unfold analyze_risk, in_band. rewrite Hcls.
  cbn [bind item0 labels scores].
  destruct (in_list L critical_labels).
  { intros [= <- <-]. left. split; [reflexivity|].
    destruct (scaled_score 80 20 c) as [Hf H];
      [lia | lia | now vm_compute | exact Hc | now rewrite Hf]. }
  destruct (in_list L warning_labels).
  { intros [= <- <-]. right; left. split; [reflexivity|].
    destruct (scaled_score 50 29 c) as [Hf H];
      [lia | lia | now vm_compute | exact Hc | now rewrite Hf]. }
  destruct (String.eqb L "Positive Growth").
  - intros [= <- <-]. right; right; left. now split.
  - intros [= <- <-]. right; right; right. now split.
Qed.

(** C1: when the classifier answers with top label [L] and a confidence
    [c] between 0 and 1, [analyze_risk] returns a pair (category, score) in
    the band of [L]: Critical with [floor(80 + c*20)], between 80 and 100,
    for the three critical labels; Warning with [floor(50 + c*29)], between
    50 and 79, for the two warning labels; Opportunity with 0 for Positive
    Growth; Info with 10 for any other label.  The sums and products are
    those of float arithmetic.  No score belongs to two categories: two
    calls that return the same score return the same category. *)
Theorem analyze_risk_score_bands (self : RiskEngine) (text L : string)
  (ls : list string) (c : Q) (cs : list Q) :
  classifier self text (risk_labels self)
    = Ok (mkClassification (L :: ls) (c :: cs)) ->
  0 <= c <= 1 ->
  exists category score,
    analyze_risk fl self text = Ok (category, score) /\
    (In L critical_labels ->
       category = "Critical" /\
       score = Qfloor (fadd fl 80 (fmul fl c 20)) /\
       (80 <= score <= 100)%Z) /\
    (In L warning_labels ->
       category = "Warning" /\
       score = Qfloor (fadd fl 50 (fmul fl c 29)) /\
       (50 <= score <= 79)%Z) /\
    (L = "Positive Growth" -> category = "Opportunity" /\ score = 0%Z) /\
    (~ In L critical_labels -> ~ In L warning_labels ->
     L <> "Positive Growth" ->
       category = "Info" /\ score = 10%Z) /\
    (forall text' L' ls' c' cs' category' score',
        classifier self text' (risk_labels self)
          = Ok (mkClassification (L' :: ls') (c' :: cs')) ->
        0 <= c' <= 1 ->
        analyze_risk fl self text' = Ok (category', score') ->
        score' = score -> category' = category).
Proof.
  intros Hcls Hc.
  assert (Hrun : exists category score,
             analyze_risk fl self text = Ok (category, score)).
  { unfold analyze_risk. rewrite Hcls. cbn [bind item0 labels scores].
    destruct (in_list L critical_labels); [eauto|].
    destruct (in_list L warning_labels); [eauto|].
    destruct (String.eqb L "Positive Growth"); eauto. }
  destruct Hrun as [category [score Hrun]].
  exists category, score. split; [exact Hrun|].
  pose proof (analyze_risk_in_band _ _ _ _ _ _ _ _ Hcls Hc Hrun) as Hband.
  assert (Hsame : forall text' L' ls' c' cs' category' score',
             classifier self text' (risk_labels self)
               = Ok (mkClassification (L' :: ls') (c' :: cs')) ->
             0 <= c' <= 1 ->
             analyze_risk fl self text' = Ok (category', score') ->
             score' = score -> category' = category).
  { intros text' L' ls' c' cs' category' score' Hcls' Hc' Hrun' ->.
    exact (bands_disjoint _ _ _
             (analyze_risk_in_band _ _ _ _ _ _ _ _ Hcls' Hc' Hrun') Hband). }
  unfold analyze_risk in Hrun. rewrite Hcls in Hrun.
  cbn [bind item0 labels scores] in Hrun.
  destruct (in_list L critical_labels) eqn:Ecrit.
  { injection Hrun as <- <-. apply in_list_spec in Ecrit.
    destruct (scaled_score 80 20 c) as [Hfloor Hrange];
      [lia | lia | now vm_compute | exact Hc |].
    split; [|split; [|split; [|split]]].
    - intros _. rewrite Hfloor. now repeat split.
    - intros Hw. exfalso. exact (critical_not_warning L Ecrit Hw).
    - intros ->. exfalso. exact (positive_not_critical Ecrit).
    - intros Hn. contradiction.
    - exact Hsame. }
  assert (Hnc : ~ In L critical_labels).
  { intros H. apply in_list_spec in H. congruence. }
  destruct (in_list L warning_labels) eqn:Ewarn.
  { injection Hrun as <- <-. apply in_list_spec in Ewarn.
    destruct (scaled_score 50 29 c) as [Hfloor Hrange];
      [lia | lia | now vm_compute | exact Hc |].
    split; [|split; [|split; [|split]]].
    - intros Hcr. contradiction.
    - intros _. rewrite Hfloor. now repeat split.
    - intros ->. exfalso. exact (positive_not_warning Ewarn).
    - intros _ Hn. contradiction.
    - exact Hsame. }
  assert (Hnw : ~ In L warning_labels).
  { intros H. apply in_list_spec in H. congruence. }
  destruct (String.eqb L "Positive Growth") eqn:Epos.
  - injection Hrun as <- <-. apply String.eqb_eq in Epos.
    split; [|split; [|split; [|split]]]; try contradiction.
    + intros _. now split.
    + exact Hsame.
  - injection Hrun as <- <-. apply String.eqb_neq in Epos.
    split; [|split; [|split; [|split]]]; try contradiction.
    + intros _ _ _. now split.
    + exact Hsame.
Qed.

End RiskBands.

(** A run of [analyze_risk] on a critical label with confidence 0.95, in
    arithmetic without rounding error. *)
Lemma analyze_risk_score_bands_witness :
  0 <= 95 # 100 <= 1 /\
  exists category score,
    analyze_risk no_rounding one_rule_engine "Riots erupt" = Ok (category, score)
    /\ category = "Critical" /\ (80 <= score <= 100)%Z.
Proof.
  assert (Hc : 0 <= 95 # 100 <= 1) by (split; unfold Qle; simpl; lia).
  split; [exact Hc|].
  destruct (analyze_risk_score_bands no_rounding
              (fun a b H => H) (fun z _ => Qeq_refl (inject_Z z))
              one_rule_engine "Riots erupt" "Critical Unrest" [] (95 # 100) []
              eq_refl Hc)
    as [category [score [Hrun [Hcrit _]]]].
  exists category, score. split; [exact Hrun|].
  destruct Hcrit as [Hcat [_ Hrange]]; [now left|]. now split.
Defined.

(** *** Idempotence of [preprocess] *)

(** Every character of the string satisfies [P]. *)
Fixpoint AllChars (P : ascii -> Prop) (s : string) : Prop :=
  match s with
  | EmptyString => True
  | String c s' => P c /\ AllChars P s'
  end.

Definition Permitted (c : ascii) : Prop := permitted c = true.

(** Only white space, or nothing at all. *)
Fixpoint blank (s : string) : bool :=
  match s with
  | EmptyString => true
  | String c s' => is_space c && blank s'
  end.

(** White space occurs only as single blanks; [after_space] tells whether
    the character before the string is white space. *)
Fixpoint Spaced (after_space : bool) (s : string) : Prop :=
  match s with
  | EmptyString => True
  | String c s' =>
      if is_space c
      then c = " "%char /\ after_space = false /\ Spaced true s'
      else Spaced false s'
  end.

(** The string does not start with white space. *)
Definition NoLead (s : string) : Prop :=
  match s with
  | EmptyString => True
  | String c _ => is_space c = false
  end.

Lemma sub_unpermitted_permitted (s : string) :
  AllChars Permitted (sub_unpermitted s).
Proof.
  induction s as [|c s IH]; simpl; [exact I|].
  destruct (permitted c) eqn:E; simpl; [split|]; assumption.
Qed.

Lemma sub_unpermitted_fixed (s : string) :
  AllChars Permitted s -> sub_unpermitted s = s.
Proof.
  induction s as [|c s IH]; simpl; [reflexivity|].
  intros [Hc Hs]. unfold Permitted in Hc. rewrite Hc. now rewrite IH.
Qed.

Lemma sub_spaces_permitted (b : bool) (s : string) :
  AllChars Permitted s -> AllChars Permitted (sub_spaces_from b s).
Proof.
  revert b. induction s as [|c s IH]; intros b; simpl; [trivial|].
  intros [Hc Hs]. destruct (is_space c), b; simpl; auto.
  split; [reflexivity | auto].
Qed.

Lemma sub_spaces_spaced (b : bool) (s : string) :
  Spaced b (sub_spaces_from b s).
Proof.
  revert b. induction s as [|c s IH]; intros b; simpl; [exact I|].
  destruct (is_space c) eqn:E.
  - destruct b; [apply IH|]. simpl. auto.
  - simpl. rewrite E. apply IH.
Qed.

Lemma sub_spaces_fixed (b : bool) (s : string) :
  Spaced b s -> sub_spaces_from b s = s.
Proof.
  revert b. induction s as [|c s IH]; intros b; simpl; [reflexivity|].
  destruct (is_space c).
  - intros [-> [-> H]]. now rewrite IH.
  - intros H. now rewrite IH.
Qed.

Lemma Spaced_weaken (b : bool) (s : string) : Spaced b s -> Spaced false s.
Proof.
  destruct s as [|c s]; simpl; [trivial|].
  destruct (is_space c); [|trivial]. intros [H1 [_ H3]]. auto.
Qed.

Lemma lstrip_permitted (s : string) :
  AllChars Permitted s -> AllChars Permitted (lstrip s).
Proof.
  induction s as [|c s IH]; simpl; [trivial|].
  intros [Hc Hs]. destruct (is_space c); simpl; auto.
Qed.

Lemma lstrip_spaced (b : bool) (s : string) :
  Spaced b s -> Spaced false (lstrip s).
Proof.
  revert b. induction s as [|c s IH]; intros b; simpl; [trivial|].
  destruct (is_space c) eqn:E.
  - intros [_ [_ H]]. now apply (IH true).
  - intros H. simpl. now rewrite E.
Qed.

Lemma lstrip_no_lead (s : string) : NoLead (lstrip s).
Proof.
  induction s as [|c s IH]; simpl; [exact I|].
  destruct (is_space c) eqn:E; [exact IH | exact E].
Qed.

Lemma lstrip_fixed (s : string) : NoLead s -> lstrip s = s.
Proof.
  destruct s as [|c s]; simpl; [reflexivity|]. now intros ->.
Qed.

Lemma rstrip_permitted (s : string) :
  AllChars Permitted s -> AllChars Permitted (rstrip s).
Proof.
  induction s as [|c s IH]; simpl; [trivial|].
  intros [Hc Hs]. specialize (IH Hs).
  destruct (rstrip s); [destruct (is_space c)|]; simpl; auto.
Qed.

Lemma rstrip_spaced (b : bool) (s : string) :
  Spaced b s -> Spaced b (rstrip s).
Proof.
  revert b. induction s as [|c s IH]; intros b; simpl; [trivial|].
  destruct (is_space c) eqn:E.
  - intros [H1 [H2 H3]]. specialize (IH true H3).
    destruct (rstrip s); [exact I|]. simpl. rewrite E. auto.
  - intros H. specialize (IH false H).
    destruct (rstrip s); simpl; rewrite E; auto.
Qed.

Lemma rstrip_no_lead (s : string) : NoLead s -> NoLead (rstrip s).
Proof.
  destruct s as [|c s]; simpl; [trivial|].
  intros E. rewrite E. now destruct (rstrip s).
Qed.

Lemma rstrip_fixed (s : string) : rstrip (rstrip s) = rstrip s.
Proof.
  induction s as [|c s IH]; simpl; [reflexivity|].
  destruct (rstrip s) as [|a r] eqn:E.
  - destruct (is_space c) eqn:Ec; simpl; [reflexivity | now rewrite Ec].
  - change (rstrip (String c (String a r)))
      with (match rstrip (String a r) with
            | EmptyString =>
                if is_space c then EmptyString else String c EmptyString
            | String a' r' => String c (String a' r')
            end).
    now rewrite IH.
Qed.

Lemma no_lead_not_blank (s : string) :
  NoLead s -> s <> "" -> blank s = false.
Proof.
  destruct s as [|c s]; simpl; [congruence|]. now intros ->.
Qed.

(** What [strip], the two substitutions and the parser leave behind when
    they have nothing to do. *)
Record Normal (s : string) : Prop := mkNormal {
  normal_chars : AllChars Permitted s;
  normal_spaced : Spaced false s;
  normal_lead : NoLead s;
  normal_trail : rstrip s = s
}.

Lemma strip_sub_normal (s : string) :
  Normal (strip (sub_spaces (sub_unpermitted s))).
Proof.
  unfold strip, sub_spaces. constructor.
  - apply rstrip_permitted, lstrip_permitted, sub_spaces_permitted,
      sub_unpermitted_permitted.
  - apply rstrip_spaced, (lstrip_spaced false), sub_spaces_spaced.
  - apply rstrip_no_lead, lstrip_no_lead.
  - apply rstrip_fixed.
Qed.

Lemma strip_sub_fixed (s : string) :
  Normal s -> strip (sub_spaces (sub_unpermitted s)) = s.
Proof.
  intros [H1 H2 H3 H4]. unfold strip, sub_spaces.
  now rewrite sub_unpermitted_fixed, sub_spaces_fixed, lstrip_fixed.
Qed.

(** A stand-in for the parser, used to run the theorems: text between an
    opening and a closing angle bracket is a tag and is replaced by one
    blank, every other character is visible text. *)
Fixpoint drop_tags (in_tag : bool) (s : string) : string :=
  match s with
  | EmptyString => EmptyString
  | String c s' =>
      if in_tag
      then if Ascii.eqb c ">" then String " " (drop_tags false s')
           else drop_tags true s'
      else if Ascii.eqb c "<" then drop_tags true s'
           else String c (drop_tags false s')
  end.

Definition visible_text (markup : string) : string := drop_tags false markup.

Lemma visible_text_plain (s : string) :
  AllChars Permitted s -> blank s = false -> visible_text s = s.
Proof.
  intros H _. unfold visible_text.
  induction s as [|c s IH]; simpl; [reflexivity|].
  destruct H as [Hc Hs]. destruct (Ascii.eqb c "<") eqn:E.
  - apply Ascii.eqb_eq in E. subst c. discriminate Hc.
  - now rewrite IH.
Qed.

Section Idempotence.

Variable get_text : string -> string.

(** The one fact about the parser the proof uses: a text made of permitted
    characters only, not all of them white space, holds no tag and no
    character reference, and is its own visible text. *)
Hypothesis get_text_plain :
  forall s : string,
    AllChars Permitted s -> blank s = false -> get_text s = s.

(** C8: normalising twice gives what normalising once gives, whatever the
    input, markup included. *)
Theorem preprocess_idempotent (x : option string) :
  preprocess get_text (Some (preprocess get_text x)) = preprocess get_text x.
Proof.
  destruct x as [[|c s]|]; try reflexivity.
  cbn [preprocess].
  pose proof (strip_sub_normal (get_text (String c s))) as Hn.
  destruct (strip (sub_spaces (sub_unpermitted (get_text (String c s)))))
    as [|a y] eqn:E; [reflexivity|].
  rewrite get_text_plain.
  - now apply strip_sub_fixed.
  - apply (normal_chars _ Hn).
  - apply no_lead_not_blank; [apply (normal_lead _ Hn) | discriminate].
Qed.

End Idempotence.

Lemma preprocess_idempotent_witness :
  let x := Some "<b>Riots erupt</b> in   Colombo, scheduled curfew tomorrow" in
  preprocess visible_text (Some (preprocess visible_text x))
  = preprocess visible_text x.
Proof.
  exact (preprocess_idempotent visible_text visible_text_plain
           (Some "<b>Riots erupt</b> in   Colombo, scheduled curfew tomorrow")).
Defined.

End EngineSpec.

(** ** The article store *)

Module DatabaseSpec.
Import Py Database.

(** The links stored, in row order. *)
Definition links (st : Store) : list string :=
  map (fun r => link (data r)) (articles st).

(** The world after a sequence of [save_article] calls, whatever each one
    returned or raised. *)
Definition save_all (ds : list Article) (w : World) : World :=
  fold_left (fun w d => snd (save_article d w)) ds w.

Lemma has_link_spec (l : string) (rows : list Row) :
  has_link l rows = true <-> In l (map (fun r => link (data r)) rows).
Proof.
  unfold has_link. rewrite existsb_exists, in_map_iff. split.
  - intros [r [Hin Heq]]. apply String.eqb_eq in Heq. now exists r.
  - intros [r [Heq Hin]]. exists r. split; [exact Hin|].
    now apply String.eqb_eq.
Qed.

Lemma has_link_app (l : string) (rows more : list Row) :
  has_link l (rows ++ more) = has_link l rows || has_link l more.
Proof.
  unfold has_link. apply existsb_app.
Qed.

Lemma next_fault_store (w : World) : store (snd (next_fault w)) = store w.
Proof.
  unfold next_fault. now destruct (faults w).
Qed.

(** What [save_article] can do to the table: leave it as it is, or append
    one row holding the article, whose link was not stored. *)
Lemma save_article_store (d : Article) (w : World) :
  store (snd (save_article d w)) = store w \/
  (has_link (link d) (articles (store w)) = false /\
   store (snd (save_article d w))
   = mkStore (articles (store w) ++ [mkRow (sqlite_sequence (store w) + 1) d])
       (sqlite_sequence (store w) + 1)).
Proof.
  unfold save_article, next_fault, insert_or_ignore.
  destruct (faults w) as [|[| msg | msg | msg] rest]; simpl;
    try (now left);
    destruct (has_link (link d) (articles (store w))) eqn:E; simpl; auto.
Qed.

Lemma save_article_faults (d : Article) (w : World) :
  faults w = [] -> faults (snd (save_article d w)) = [].
Proof.
  intros H. unfold save_article, next_fault, insert_or_ignore. rewrite H.
  now destruct (has_link (link d) (articles (store w))).
Qed.

Lemma save_article_nodup (d : Article) (w : World) :
  NoDup (links (store w)) -> NoDup (links (store (snd (save_article d w)))).
Proof.
  intros H. destruct (save_article_store d w) as [-> | [Hnew ->]];
    [exact H|].
  unfold links in *; simpl. rewrite map_app; simpl.
  assert (Hnot : ~ In (link d) (map (fun r => link (data r)) (articles (store w)))).
  { rewrite <- has_link_spec. now rewrite Hnew. }
  clear Hnew. induction (articles (store w)) as [|r rows IH]; simpl in *.
  - constructor; [intros [] | constructor].
  - inversion H as [|? ? Hr Hrows]; subst. constructor.
    + rewrite in_app_iff. intros [Hin | [Heq | []]]; [now apply Hr|].
      apply Hnot. now left.
    + apply IH; [exact Hrows|]. intros Hin. apply Hnot. now right.
Qed.

Lemma save_all_nodup (ds : list Article) (w : World) :
  NoDup (links (store w)) -> NoDup (links (store (save_all ds w))).
Proof.
  revert w. induction ds as [|d ds IH]; intros w H; simpl; [exact H|].
  apply IH. now apply save_article_nodup.
Qed.

(** C2: as long as the storage layer does not fail the call, saving an
    article whose link is already stored writes no row and returns [False],
    and saving one whose link is absent appends exactly one row, holding the
    article, and returns [True].  Hence, with or without storage failures,
    no sequence of saves started on the initialised store ever leaves two
    rows with one link. *)
Theorem save_article_insert_or_ignore (d : Article) (w : World) :
  fst (next_fault w) = NoFault ->
  (has_link (link d) (articles (store w)) = true ->
   save_article d w = (Ok false, snd (next_fault w)))
  /\
  (has_link (link d) (articles (store w)) = false ->
   exists new_id,
     save_article d w
     = (Ok true,
        set_store (mkStore (articles (store w) ++ [mkRow new_id d]) new_id)
          (snd (next_fault w)))
     /\ List.length (articles (store (snd (save_article d w))))
        = S (List.length (articles (store w))))
  /\
  (forall (ds : list Article) (fs : list Fault),
      NoDup (links (store (save_all ds (mkWorld empty_store [] fs))))).
Proof.
  intros Hfault. split; [|split].
  - intros Hdup. unfold save_article, insert_or_ignore.
    destruct (next_fault w) as [f w'] eqn:E. simpl in Hfault. subst f.
    assert (Hst : store w' = store w).
    { pose proof (next_fault_store w) as H. now rewrite E in H. }
    rewrite Hst, Hdup. simpl. unfold set_store. rewrite <- Hst.
    now destruct w'.
  - intros Hnew. exists (sqlite_sequence (store w) + 1)%Z.
    unfold save_article, insert_or_ignore.
    destruct (next_fault w) as [f w'] eqn:E. simpl in Hfault. subst f.
    assert (Hst : store w' = store w).
    { pose proof (next_fault_store w) as H. now rewrite E in H. }
    rewrite Hst, Hnew. simpl. split; [reflexivity|].
    rewrite length_app. simpl. lia.
  - intros ds fs. apply save_all_nodup. simpl. constructor.
Qed.

Definition sample_article : Article :=
  mkArticle "Riots erupt in Colombo" "L1" "Unknown" "Daily" "Critical" 99
    "INFRASTRUCTURE" (Some (69 # 10)) (Some (798 # 10)) 1.

Definition fresh_world : World := mkWorld empty_store [] [].

Lemma save_article_insert_or_ignore_witness :
  save_article sample_article fresh_world
  = (Ok true, mkWorld (mkStore [mkRow 1 sample_article] 1) [] [])
  /\ save_article sample_article (snd (save_article sample_article fresh_world))
     = (Ok false, mkWorld (mkStore [mkRow 1 sample_article] 1) [] []).
Proof.
  pose proof (save_article_insert_or_ignore sample_article fresh_world eq_refl)
    as [_ [Hnew _]].
  pose proof (save_article_insert_or_ignore sample_article
                (mkWorld (mkStore [mkRow 1 sample_article] 1) [] []) eq_refl)
    as [Hdup _].
  destruct (Hnew eq_refl) as [new_id [Hsave _]].
  split; [reflexivity|]. exact (Hdup eq_refl).
Defined.

(** The claim as the specification words it needs at least this: what
    [save_article] hands back after a storage error differs from what it
    hands back for an ignored duplicate. *)
Definition storage_error_is_surfaced : Prop :=
  forall (d : Article) (w_error w_duplicate : World) (msg : string)
         (rest : list Fault),
    faults w_error = ExecuteFails msg :: rest ->
    fst (next_fault w_duplicate) = NoFault ->
    has_link (link d) (articles (store w_duplicate)) = true ->
    fst (save_article d w_error) <> fst (save_article d w_duplicate).

(** C7, counterexample: saving an article into a store whose INSERT fails
    with "disk full" returns [False], and so does saving it into a healthy
    store that already holds its link; the caller cannot tell them apart,
    and no exception reaches it. *)
Lemma storage_error_returns_false_like_duplicate :
  ~ storage_error_is_surfaced.
Proof.
  intros claim.
  apply (claim sample_article
           (mkWorld empty_store [] [ExecuteFails "disk full"])
           (mkWorld (mkStore [mkRow 1 sample_article] 1) [] [])
           "disk full" []); reflexivity.
Qed.

End DatabaseSpec.

(** ** The ingestion cycle *)

Module PipelineSpec.
Import Py Database Pipeline DatabaseSpec.

(** The lat and lon of every stored row are both present or both absent. *)
Definition Paired (w : World) : Prop :=
  Forall (fun r => lat (data r) = None <-> lon (data r) = None)
    (articles (store w)).

(** [w'] is a later state of [w]: every stored link is still stored, and
    a storage layer without pending faults stays so. *)
Definition Extends (w w' : World) : Prop :=
  (forall l, has_link l (articles (store w)) = true ->
             has_link l (articles (store w')) = true) /\
  (faults w = [] -> faults w' = []).

Lemma Extends_refl (w : World) : Extends w w.
Proof.
  split; auto.
Qed.

Lemma Extends_trans (w1 w2 w3 : World) :
  Extends w1 w2 -> Extends w2 w3 -> Extends w1 w3.
Proof.
  intros [H1 H2] [H3 H4]. split; auto.
Qed.

Lemma Extends_print (line : string) (w : World) : Extends w (print line w).
Proof.
  split; auto.
Qed.

Lemma save_article_extends (d : Article) (w : World) :
  Extends w (snd (save_article d w)).
Proof.
  split.
  - intros l H. destruct (save_article_store d w) as [-> | [_ ->]];
      [exact H|]. simpl. rewrite has_link_app, H. reflexivity.
  - apply save_article_faults.
Qed.

Lemma save_article_persists (d : Article) (w : World) :
  faults w = [] ->
  (exists b, fst (save_article d w) = Ok b) /\
  has_link (link d) (articles (store (snd (save_article d w)))) = true.
Proof.
  intros H. unfold save_article, next_fault, insert_or_ignore. rewrite H.
  destruct (has_link (link d) (articles (store w))) eqn:E; simpl.
  - split; [now exists false | exact E].
  - split; [now exists true|]. rewrite has_link_app. simpl.
    rewrite String.eqb_refl. apply orb_true_r.
Qed.

Lemma save_article_rows (d : Article) (w : World) (r : Row) :
  In r (articles (store (snd (save_article d w)))) ->
  In r (articles (store w)) \/ data r = d.
Proof.
  destruct (save_article_store d w) as [-> | [_ ->]]; [now left|].
  simpl. rewrite in_app_iff. intros [H | [<- | []]]; [now left | now right].
Qed.

Lemma for_each_total {A} (body : A -> IO unit) :
  (forall x w, exists w', body x w = (Ok tt, w')) ->
  forall xs w, exists w', for_each xs body w = (Ok tt, w').
Proof.
  intros Hbody xs. induction xs as [|x xs IH]; intros w; simpl.
  - now exists w.
  - unfold bindIO. destruct (Hbody x w) as [w' ->]. apply IH.
Qed.

(** A property of the world that every iteration keeps, raising or not,
    holds after the loop. *)
Lemma for_each_preserves {A} (I : World -> Prop) (body : A -> IO unit) :
  (forall x w, I w -> I (snd (body x w))) ->
  forall xs w, I w -> I (snd (for_each xs body w)).
Proof.
  intros Hbody xs. induction xs as [|x xs IH]; intros w Hw; simpl.
  - exact Hw.
  - unfold bindIO. specialize (Hbody x w Hw).
    destruct (body x w) as [[[]|e] w']; simpl in *; auto.
Qed.

Lemma scan_locations_paired (locs : list (string * Engine.Coords))
  (text : string) :
  fst (Engine.scan_locations locs text) = None <->
  snd (Engine.scan_locations locs text) = None.
Proof.
  induction locs as [|[city coords] rest IH]; simpl.
  - split; reflexivity.
  - destruct (contains city text); simpl; [split; discriminate | exact IH].
Qed.

Section Cycle.

Variable get_text : string -> string.
Variable fl : Q -> Q.
Variable parse : string -> PyResult Feed.
Variable engine : Engine.RiskEngine.

Abbreviation process_entry := (process_entry get_text fl engine).
Abbreviation process_feed_body := (process_feed_body get_text fl parse engine).
Abbreviation process_feed := (process_feed get_text fl parse engine).
Abbreviation run_sources := (run_sources get_text fl parse engine).

(** An entry that the body of the loop handles without raising: it has a
    title and a link, and the classifier answers on its cleaned title. *)
Definition entry_ok (entry : Entry) : Prop :=
  exists raw_title l analysis,
    entry_title entry = Some raw_title /\
    entry_link entry = Some l /\
    Engine.analyze_risk fl engine (Engine.preprocess get_text (Some raw_title))
    = Ok analysis.

(** The world a cycle ends in when each source is processed in turn. *)
Definition each_in_turn (feed_list : list Source) (w : World) : World :=
  fold_left (fun w source => snd (process_feed source w)) feed_list w.

(** Runs [process_entry] up to its call of [save_article]; the branches
    that raise before it leave the world untouched. *)
Ltac step_entry entry :=
  unfold Pipeline.process_entry, bindIO, attr, lift, ret, raise;
  destruct (entry_title entry) as [?raw_title|]; [|try assumption];
  [ destruct (Engine.analyze_risk fl engine _) as [[?category ?risk]|];
    [|try assumption];
    [ destruct (Engine.get_location engine _) as [?la ?lo] eqn:?Eloc;
      destruct (entry_link entry) as [?l|]; [|try assumption] | .. ] | .. ].

Lemma process_entry_extends (source_config : Source) (entry : Entry)
  (w : World) :
  Extends w (snd (process_entry source_config entry w)).
Proof.
  step_entry entry; try apply Extends_refl.
  match goal with
  | |- context [save_article ?d w] =>
      pose proof (save_article_extends d w) as H;
      destruct (save_article d w) as [[[|]|e] w']
  end; exact H.
Qed.

Lemma process_entry_paired (source_config : Source) (entry : Entry)
  (w : World) :
  Paired w -> Paired (snd (process_entry source_config entry w)).
Proof.
  intros Hw. step_entry entry; try exact Hw.
  assert (Hpair : la = None <-> lo = None).
  { match type of Eloc with
    | Engine.get_location _ ?t = _ =>
        pose proof (scan_locations_paired (Engine.locations engine) t) as H
    end.
    unfold Engine.get_location in Eloc. now rewrite Eloc in H. }
  match goal with
  | |- context [save_article ?d w] =>
      pose proof (save_article_rows d w) as Hrows;
      destruct (save_article d w) as [[[|]|e] w']
  end; simpl in *; unfold Paired in *; simpl; apply Forall_forall;
    intros r Hr; (destruct (Hrows r Hr) as [Hold | ->];
    [ now apply (proj1 (Forall_forall _ _) Hw) | exact Hpair ]).
Qed.

Lemma process_entry_persists (source_config : Source) (entry : Entry)
  (l : string) (w : World) :
  entry_ok entry -> entry_link entry = Some l -> faults w = [] ->
  fst (process_entry source_config entry w) = Ok tt /\
  has_link l (articles (store (snd (process_entry source_config entry w))))
  = true.
Proof.
  intros [raw_title [l' [analysis [Ht [Hl Ha]]]]] Hlink Hf.
  unfold Pipeline.process_entry, bindIO, attr, lift, ret, raise.
  rewrite Ht, Ha, Hlink. destruct analysis as [category risk].
  destruct (Engine.get_location engine
              (Engine.preprocess get_text (Some raw_title))) as [la lo].
  match goal with
  | |- context [save_article ?d w] =>
      destruct (save_article_persists d w Hf) as [[b Hb] Hp];
      destruct (save_article d w) as [res w']
  end.
  simpl in Hb, Hp. subst res. destruct b; simpl; auto.
Qed.

Lemma process_entries_persist (source_config : Source) (es : list Entry)
  (w : World) :
  (forall entry, In entry es -> entry_ok entry) -> faults w = [] ->
  fst (for_each es (process_entry source_config) w) = Ok tt /\
  forall entry l, In entry es -> entry_link entry = Some l ->
    has_link l
      (articles (store (snd (for_each es (process_entry source_config) w))))
    = true.
Proof.
  revert w. induction es as [|e es IH]; intros w Hok Hf; simpl.
  - split; [reflexivity | intros entry l []].
  - unfold bindIO.
    assert (He : entry_ok e) by (apply Hok; now left).
    pose proof (process_entry_extends source_config e w) as Hext.
    destruct (process_entry source_config e w) as [res w'] eqn:E.
    simpl in Hext.
    assert (Hres : res = Ok tt).
    { destruct He as [t [l' [a [Ht [Hl Ha]]]]].
      pose proof (process_entry_persists source_config e l' w
                    (ex_intro _ t (ex_intro _ l' (ex_intro _ a
                       (conj Ht (conj Hl Ha))))) Hl Hf) as [H _].
      now rewrite E in H. }
    subst res.
    destruct (IH w') as [IH1 IH2];
      [intros entry Hin; apply Hok; now right | now apply Hext |].
    split; [exact IH1|].
    intros entry l [<- | Hin] Hl.
    + pose proof (process_entry_persists source_config e l w He Hl Hf)
        as [_ H].
      rewrite E in H. simpl in H.
      apply (for_each_preserves
               (fun w0 => has_link l (articles (store w0)) = true)
               (process_entry source_config)); [|exact H].
      intros x w0 H0. now apply (process_entry_extends source_config x w0).
    + now apply (IH2 entry).
Qed.

Lemma process_feed_total (source_config : Source) (w : World) :
  exists w', process_feed source_config w = (Ok tt, w').
Proof.
  unfold Pipeline.process_feed, try_except.
  destruct (process_feed_body source_config w) as [[[]|e] w']; eauto.
Qed.

Lemma process_feed_body_extends (source_config : Source) (w : World) :
  Extends w (snd (process_feed_body source_config w)).
Proof.
  unfold Pipeline.process_feed_body, bindIO, lift, ret.
  destruct (parse (url source_config)) as [feed|e]; [|apply Extends_refl].
  destruct (entries feed) as [|e0 es] eqn:E; [apply Extends_refl|].
  apply (for_each_preserves (Extends w)); [|apply Extends_refl].
  intros x w0 H. eapply Extends_trans; [exact H|].
  apply process_entry_extends.
Qed.

Lemma process_feed_extends (source_config : Source) (w : World) :
  Extends w (snd (process_feed source_config w)).
Proof.
  pose proof (process_feed_body_extends source_config w) as H.
  unfold Pipeline.process_feed, try_except.
  destruct (process_feed_body source_config w) as [[[]|e] w']; simpl in *;
    [exact H|].
  eapply Extends_trans; [exact H | apply Extends_print].
Qed.

Lemma process_feed_paired (source_config : Source) (w : World) :
  Paired w -> Paired (snd (process_feed source_config w)).
Proof.
  intros Hw.
  assert (H : Paired (snd (process_feed_body source_config w))).
  { unfold Pipeline.process_feed_body, bindIO, lift, ret.
    destruct (parse (url source_config)) as [feed|e]; [|exact Hw].
    destruct (entries feed) as [|e0 es] eqn:E; [exact Hw|].
    apply (for_each_preserves Paired); [|exact Hw].
    intros x w0. apply process_entry_paired. }
  unfold Pipeline.process_feed, try_except.
  destruct (process_feed_body source_config w) as [[[]|e] w']; exact H.
Qed.

Lemma each_in_turn_extends (feed_list : list Source) (w : World) :
  Extends w (each_in_turn feed_list w).
Proof.
  revert w. induction feed_list as [|s rest IH]; intros w; simpl.
  - apply Extends_refl.
  - eapply Extends_trans; [apply process_feed_extends | apply IH].
Qed.

Lemma run_sources_each_in_turn (feed_list : list Source) (w : World) :
  run_sources feed_list w = (Ok tt, each_in_turn feed_list w).
Proof.
  revert w. induction feed_list as [|s rest IH]; intros w.
  - reflexivity.
  - unfold Pipeline.run_sources in *. simpl. unfold bindIO.
    destruct (process_feed_total s w) as [w' E]. rewrite E. simpl.
    apply IH.
Qed.

(** The cycle never raises, whatever the sources, the classifier and the
    storage layer do. *)
Lemma run_sources_total (feed_list : list Source) (w : World) :
  exists w', run_sources feed_list w = (Ok tt, w').
Proof.
  exists (each_in_turn feed_list w). apply run_sources_each_in_turn.
Qed.

Lemma run_sources_paired (feed_list : list Source) (w : World) :
  Paired w -> Paired (snd (run_sources feed_list w)).
Proof.
  rewrite run_sources_each_in_turn. simpl.
  revert w. induction feed_list as [|s rest IH]; intros w Hw; simpl.
  - exact Hw.
  - apply IH. now apply process_feed_paired.
Qed.

Lemma process_feed_persists (source_config : Source) (feed : Feed)
  (w : World) :
  parse (url source_config) = Ok feed ->
  (forall entry, In entry (firstn 5 (entries feed)) -> entry_ok entry) ->
  faults w = [] ->
  forall entry l,
    In entry (firstn 5 (entries feed)) -> entry_link entry = Some l ->
    has_link l (articles (store (snd (process_feed source_config w)))) = true.
Proof.
  intros Hparse Hok Hf entry l Hin Hl.
  unfold Pipeline.process_feed, try_except, Pipeline.process_feed_body,
    bindIO, lift, ret.
  rewrite Hparse.
  destruct (entries feed) as [|e0 es] eqn:E; [destruct Hin|].
  destruct (process_entries_persist source_config (firstn 5 (e0 :: es)) w
              Hok Hf) as [H1 H2].
  specialize (H2 entry l Hin Hl).
  destruct (for_each (firstn 5 (e0 :: es)) (process_entry source_config) w)
    as [res w'].
  simpl in H1, H2. subst res. exact H2.
Qed.

Lemma each_in_turn_persists (feed_list : list Source) (w : World) :
  faults w = [] ->
  forall source_config feed,
    In source_config feed_list ->
    parse (url source_config) = Ok feed ->
    (forall entry, In entry (firstn 5 (entries feed)) -> entry_ok entry) ->
    forall entry l,
      In entry (firstn 5 (entries feed)) -> entry_link entry = Some l ->
      has_link l (articles (store (each_in_turn feed_list w))) = true.
Proof.
  revert w. induction feed_list as [|s rest IH];
    intros w Hf source_config feed Hin Hparse Hok entry l Hentry Hl;
    [destruct Hin|].
  simpl. destruct Hin as [-> | Hin].
  - apply (proj1 (each_in_turn_extends rest _)).
    exact (process_feed_persists source_config feed w Hparse Hok Hf
             entry l Hentry Hl).
  - exact (IH _ (proj2 (process_feed_extends s w) Hf) source_config feed
             Hin Hparse Hok entry l Hentry Hl).
Qed.

(** C6: one cycle over the source list never raises and ends in the world
    obtained by processing every source of the list, in list order; a
    source whose processing raises is caught, reported on the console, and
    followed by the sources after it; and when the storage layer is
    healthy, every link served by a source that raises nothing is stored at
    the end of the cycle, whatever the other sources did. *)
Theorem run_sources_isolates_failures (feed_list : list Source) (w : World) :
  run_sources feed_list w = (Ok tt, each_in_turn feed_list w)
  /\
  (forall source_config w0 e w1,
      process_feed_body source_config w0 = (Raised e, w1) ->
      process_feed source_config w0
      = (Ok tt,
         print (" Error processing " ++ name source_config ++ ": " ++ e) w1))
  /\
  (forall before source_config after,
      feed_list = before ++ source_config :: after ->
      each_in_turn feed_list w
      = each_in_turn after
          (snd (process_feed source_config (each_in_turn before w))))
  /\
  (faults w = [] ->
   forall source_config feed,
     In source_config feed_list ->
     parse (url source_config) = Ok feed ->
     (forall entry, In entry (firstn 5 (entries feed)) -> entry_ok entry) ->
     forall entry l,
       In entry (firstn 5 (entries feed)) -> entry_link entry = Some l ->
       has_link l (articles (store (snd (run_sources feed_list w)))) = true).
Proof.
  split; [apply run_sources_each_in_turn|]. split; [|split].
  - intros source_config w0 e w1 H.
    unfold Pipeline.process_feed, try_except. now rewrite H.
  - intros before source_config after ->. unfold each_in_turn.
    now rewrite fold_left_app.
  - intros Hf source_config feed Hin Hparse Hok entry l Hentry Hl.
    rewrite run_sources_each_in_turn. simpl.
    exact (each_in_turn_persists feed_list w Hf source_config feed
             Hin Hparse Hok entry l Hentry Hl).
Qed.

(** C7 (as amended): when the INSERT of [save_article] raises, the error is
    caught inside [save_article]: it is printed, no row is written, and the
    caller gets [False], the value an ignored duplicate gives.  The entry
    being processed is thereby skipped and its loop goes on; and no storage
    failure of any kind makes a cycle raise. *)
Theorem save_article_storage_error (d : Article) (w : World) (msg : string)
  (rest : list Fault) :
  faults w = ExecuteFails msg :: rest ->
  save_article d w
  = (Ok false, mkWorld (store w) (stdout w ++ [("DB Error: " ++ msg)%string]) rest)
  /\
  (forall source_config entry,
      entry_ok entry ->
      process_entry source_config entry w
      = (Ok tt, mkWorld (store w) (stdout w ++ [("DB Error: " ++ msg)%string]) rest))
  /\
  (forall feed_list w0, exists w', run_sources feed_list w0 = (Ok tt, w')).
Proof.
  intros Hf.
  assert (Hsave : forall a,
             save_article a w
             = (Ok false,
                mkWorld (store w) (stdout w ++ [("DB Error: " ++ msg)%string]) rest)).
  { intros a. unfold save_article, next_fault. now rewrite Hf. }
  split; [apply Hsave|]. split; [|apply run_sources_total].
  intros source_config entry [raw_title [l [[category risk] [Ht [Hl Ha]]]]].
  unfold Pipeline.process_entry, bindIO, attr, lift, ret, raise.
  rewrite Ht, Ha, Hl.
  destruct (Engine.get_location engine
              (Engine.preprocess get_text (Some raw_title))) as [la lo].
  now rewrite Hsave.
Qed.

End Cycle.

(** *** A cycle over three sources, the second of which cannot be fetched *)

Definition three_sources : list Source :=
  [mkSource "First" "u1"; mkSource "Second" "u2"; mkSource "Third" "u3"].

Definition sample_parse (url : string) : PyResult Feed :=
  if String.eqb url "u1" then
    Ok (mkFeed [mkEntry (Some "<b>Riots erupt</b> in Colombo") (Some "L1") None])
  else if String.eqb url "u3" then
    Ok (mkFeed [mkEntry (Some "Port reopens") (Some "L3") (Some "Mon")])
  else Raised "connection timed out".

Lemma run_sources_isolates_failures_witness :
  fst (run_sources EngineSpec.visible_text no_rounding sample_parse
         EngineSpec.one_rule_engine three_sources fresh_world) = Ok tt
  /\ links (store (snd (run_sources EngineSpec.visible_text no_rounding
                          sample_parse EngineSpec.one_rule_engine
                          three_sources fresh_world)))
     = ["L1"; "L3"].
Proof.
  destruct (run_sources_isolates_failures EngineSpec.visible_text no_rounding
              sample_parse EngineSpec.one_rule_engine three_sources
              fresh_world) as [Hrun _].
  rewrite Hrun. split; [reflexivity|]. vm_compute. reflexivity.
Defined.

Lemma save_article_storage_error_witness :
  save_article sample_article
    (mkWorld empty_store [] [ExecuteFails "disk full"])
  = (Ok false, mkWorld empty_store ["DB Error: disk full"] []).
Proof.
  exact (proj1 (save_article_storage_error EngineSpec.visible_text no_rounding
                  sample_parse EngineSpec.one_rule_engine sample_article
                  (mkWorld empty_store [] [ExecuteFails "disk full"])
                  "disk full" [] eq_refl)).
Defined.

(** *** Locations *)

(** C9: [get_location] returns the coordinates of the first gazetteer
    name, in gazetteer order, that occurs in the text, and the pair
    (None, None) when none occurs; either way both components are present
    or both are absent, and a cycle of the pipeline, which stores what
    [get_location] returned, keeps this pairing on every stored row. *)
Theorem get_location_first_match (self : Engine.RiskEngine) (text : string) :
  ((forall entry, In entry (Engine.locations self) ->
      ~ Occurs (fst entry) text) ->
   Engine.get_location self text = (None, None))
  /\
  (forall before city coords after,
      Engine.locations self = before ++ (city, coords) :: after ->
      (forall entry, In entry before -> ~ Occurs (fst entry) text) ->
      Occurs city text ->
      Engine.get_location self text
      = (Some (Engine.lat coords), Some (Engine.lon coords)))
  /\
  (fst (Engine.get_location self text) = None <->
   snd (Engine.get_location self text) = None)
  /\
  (forall get_text fl parse feed_list w,
      Paired w ->
      Paired (snd (run_sources get_text fl parse self feed_list w))).
Proof.
  unfold Engine.get_location. split; [|split; [|split]].
  - induction (Engine.locations self) as [|[city coords] rest IH];
      intros H; simpl; [reflexivity|].
    destruct (contains city text) eqn:E.
    + exfalso. apply (H (city, coords)); [now left|].
      now apply PyFacts.contains_spec.
    + apply IH. intros entry Hin. apply H. now right.
  - intros before city coords after -> Hnone Hocc.
    induction before as [|[c0 k0] rest IH]; simpl.
    + apply PyFacts.contains_spec in Hocc. now rewrite Hocc.
    + destruct (contains c0 text) eqn:E.
      * exfalso. apply (Hnone (c0, k0)); [now left|].
        now apply PyFacts.contains_spec.
      * apply IH. intros entry Hin. apply Hnone. now right.
  - apply scan_locations_paired.
  - intros get_text fl parse feed_list w. apply run_sources_paired.
Qed.

End PipelineSpec.

(** ** Analytics *)

Module AnalyticsSpec.
Import Py Analytics.

Local Open Scope Z_scope.

(** [round(x)] of Python: to the nearest integer, a tie to the even one. *)
Definition py_round (x : Q) : Z :=
  let f := Qfloor x in
  match Qcompare (x - inject_Z f) (1 # 2) with
  | Lt => f
  | Gt => f + 1
  | Eq => if Z.even f then f else f + 1
  end.

(** How many rows have a score above [k]. *)
Fixpoint count_above (k : Z) (rows : list DfRow) : Z :=
  match rows with
  | [] => 0
  | r :: rest =>
      match risk_score r with
      | Some v => if k <? v then 1 + count_above k rest else count_above k rest
      | None => count_above k rest
      end
  end.

(** The scores the stability is computed from: those present in the 50
    first matching rows. *)
Definition window (df : DataFrame) (sector_filter : option string) : list Z :=
  dropna (map risk_score (firstn 50 (_get_data df sector_filter))).

Definition stability (result : Z * Z * Z) : Z := fst (fst result).
Definition critical_count (result : Z * Z * Z) : Z := snd (fst result).

(** The claim as the specification words it: 100 minus the rounded mean,
    the mean of an empty window counting as 0. *)
Definition stability_is_rounded_mean (fl : Q -> Q) : Prop :=
  forall (now : Z) (df : DataFrame) (sector_filter : option string),
    let scores := window df sector_filter in
    let avg_risk :=
      match scores with
      | [] => 0%Q
      | _ => (inject_Z (sum scores) / inject_Z (len scores))%Q
      end in
    stability (get_national_indicators fl now df sector_filter)
    = 100 - py_round avg_risk.

Definition scored (score : Z) : DfRow :=
  mkDfRow 0 "" "" "Info" (Some score) "GENERAL" None None 0 None.

Lemma count_above_filter (k : Z) (rows : list DfRow) :
  len (filter (score_gt k) rows) = count_above k rows.
Proof.
  unfold len. induction rows as [|r rows IH]; [reflexivity|].
  cbn [filter count_above]. unfold score_gt at 1.
  destruct (risk_score r) as [v|]; [|exact IH].
  destruct (k <? v); [|exact IH].
  cbn [List.length]. rewrite <- IH. lia.
Qed.

Lemma dropna_length (cells : list (option Z)) :
  (List.length (dropna cells) <= List.length cells)%nat.
Proof.
  induction cells as [|[v|] cells IH]; simpl; lia.
Qed.

Lemma window_length (df : DataFrame) (sector_filter : option string) :
  len (window df sector_filter) <= 50.
Proof.
  unfold len, window.
  pose proof (dropna_length
                (map risk_score (firstn 50 (_get_data df sector_filter)))) as H.
  rewrite length_map in H.
  pose proof (firstn_le_length 50 (_get_data df sector_filter)) as H1.
  pose proof (length_firstn 50 (_get_data df sector_filter)) as H2.
  lia.
Qed.

Lemma sum_bounds (vs : list Z) :
  Forall (fun v => 0 <= v <= 100) vs -> 0 <= sum vs <= 100 * len vs.
Proof.
  unfold len. induction 1 as [|v vs Hv Hvs IH].
  - simpl. lia.
  - cbn [List.length]. change (sum (v :: vs)) with (v + sum vs). lia.
Qed.

(** [int] of a float that lies between two multiples of 1/64 with the same
    integer part. *)
Lemma int_of_float_between (m : Z) (x : Q) :
  0 <= m ->
  (64 * m # 64 <= x)%Q -> (x <= 64 * m + 63 # 64)%Q ->
  int_of_float x = m.
Proof.
  intros Hm Hlo Hhi.
  rewrite EngineSpec.int_of_float_nonneg.
  - apply Qfloor_resp_le in Hlo, Hhi.
    unfold Qfloor in Hlo at 1. unfold Qfloor in Hhi at 2.
    assert (E1 : 64 * m / 64 = m) by (symmetry; apply Z.div_unique with 0; lia).
    assert (E2 : (64 * m + 63) / 64 = m) by (symmetry; apply Z.div_unique with 63; lia).
    lia.
  - apply Qle_trans with (64 * m # 64)%Q; [|exact Hlo].
    unfold Qle; cbn [Qnum Qden]; lia.
Qed.

Lemma minus_from_100 (lo hi : Z) (x : Q) :
  (lo # 64 <= x)%Q -> (x <= hi # 64)%Q ->
  (6400 - hi # 64 <= 100 - x)%Q /\ (100 - x <= 6400 - lo # 64)%Q.
Proof.
  destruct x as [a b]. unfold Qle, Qminus, Qplus, Qopp; cbn [Qnum Qden].
  intros H1 H2. split; lia.
Qed.

Section Indicators.

Variable fl : Q -> Q.

(** Float rounding is monotone, and leaves alone the multiples of 1/64 of
    moderate size, which a double holds exactly. *)
Hypothesis fl_monotone : forall a b : Q, (a <= b)%Q -> (fl a <= fl b)%Q.
Hypothesis fl_grid :
  forall z : Z, Z.abs z <= 2 ^ 20 -> (fl (z # 64) == z # 64)%Q.

Lemma fl_grid_between (lo hi : Z) (x : Q) :
  Z.abs lo <= 2 ^ 20 -> Z.abs hi <= 2 ^ 20 ->
  (lo # 64 <= x)%Q -> (x <= hi # 64)%Q ->
  (lo # 64 <= fl x)%Q /\ (fl x <= hi # 64)%Q.
Proof.
  intros Hlo Hhi H1 H2. split.
  - apply Qle_trans with (fl (lo # 64)).
    + apply EngineSpec.Qeq_Qle. symmetry. now apply fl_grid.
    + now apply fl_monotone.
  - apply Qle_trans with (fl (hi # 64)).
    + now apply fl_monotone.
    + apply EngineSpec.Qeq_Qle. now apply fl_grid.
Qed.

(** [int(100 - total / count)] for at most 50 scores between 0 and 100. *)
Lemma stability_ceiling (total count : Z) :
  1 <= count <= 50 -> 0 <= total <= 100 * count ->
  int_of_float (fsub fl 100 (fdiv fl (inject_Z total) (inject_Z count)))
  = 100 - Qceiling (inject_Z total / inject_Z count).
Proof.
  intros Hcount Htotal. unfold fsub, fdiv.
  set (q := (inject_Z total / inject_Z count)%Q).
  assert (Hpos : (0 < inject_Z count)%Q).
  { change 0%Q with (inject_Z 0). rewrite <- Zlt_Qlt. lia. }
  pose proof (Z.div_mod total count ltac:(lia)) as Hdiv.
  pose proof (Z.mod_pos_bound total count ltac:(lia)) as Hmod.
  set (k := total / count) in *. set (r := total mod count) in *.
  assert (Hk : 0 <= k <= 100) by nia.
  assert (Hbounds : exists lo hi,
             64 * k <= lo /\ hi <= 64 * k + 64 /\ lo <= hi /\
             hi - lo <= 62 /\ (lo = 64 * k \/ 64 * k < lo) /\
             (r = 0 -> lo = 64 * k /\ hi = 64 * k) /\
             (r <> 0 -> lo = 64 * k + 1 /\ hi = 64 * k + 63) /\
             (lo # 64 <= q)%Q /\ (q <= hi # 64)%Q).
  { destruct (Z.eq_dec r 0) as [E | E].
    - exists (64 * k), (64 * k). repeat split; try lia.
      + unfold q. apply Qle_shift_div_l; [exact Hpos|].
        unfold Qle; cbn [Qnum Qden inject_Z Qmult]; nia.
      + unfold q. apply Qle_shift_div_r; [exact Hpos|].
        unfold Qle; cbn [Qnum Qden inject_Z Qmult]; nia.
    - exists (64 * k + 1), (64 * k + 63). repeat split; try lia.
      + unfold q. apply Qle_shift_div_l; [exact Hpos|].
        unfold Qle; cbn [Qnum Qden inject_Z Qmult]; nia.
      + unfold q. apply Qle_shift_div_r; [exact Hpos|].
        unfold Qle; cbn [Qnum Qden inject_Z Qmult]; nia. }
  destruct Hbounds as [lo [hi [B1 [B2 [B3 [B4 [B5 [B6 [B7 [Hlo Hhi]]]]]]]]]].
  assert (P20 : 2 ^ 20 = 1048576) by reflexivity.
  destruct (fl_grid_between lo hi q) as [Flo Fhi]; try lia;
    [exact Hlo | exact Hhi |].
  destruct (minus_from_100 lo hi (fl q) Flo Fhi) as [Mlo Mhi].
  destruct (fl_grid_between (6400 - hi) (6400 - lo) (100 - fl q)%Q)
    as [Glo Ghi]; try lia; [exact Mlo | exact Mhi |].
  assert (Clo : Qceiling (lo # 64) <= Qceiling q)
    by now apply Qceiling_resp_le.
  assert (Chi : Qceiling q <= Qceiling (hi # 64))
    by now apply Qceiling_resp_le.
  assert (Cz : forall z, Qceiling (z # 64) = - (- z / 64)) by reflexivity.
  rewrite Cz in Clo, Chi.
  destruct (Z.eq_dec r 0) as [E | E].
  - destruct (B6 E) as [-> ->].
    assert (E1 : - (64 * k) / 64 = - k) by (symmetry; apply Z.div_unique with 0; lia).
    rewrite E1 in *.
    replace (100 - Qceiling q) with (100 - k) by lia.
    apply int_of_float_between; [lia | |].
    + eapply Qle_trans; [|exact Glo]. unfold Qle; cbn [Qnum Qden]; lia.
    + eapply Qle_trans; [exact Ghi|]. unfold Qle; cbn [Qnum Qden]; lia.
  - destruct (B7 E) as [-> ->].
    assert (E1 : - (64 * k + 1) / 64 = - k - 1)
      by (symmetry; apply Z.div_unique with 63; lia).
    assert (E2 : - (64 * k + 63) / 64 = - k - 1)
      by (symmetry; apply Z.div_unique with 1; lia).
    rewrite E1, E2 in *.
    replace (100 - Qceiling q) with (99 - k) by lia.
    assert (k <= 99) by nia.
    apply int_of_float_between; [lia | |].
    + eapply Qle_trans; [|exact Glo]. unfold Qle; cbn [Qnum Qden]; lia.
    + eapply Qle_trans; [exact Ghi|]. unfold Qle; cbn [Qnum Qden]; lia.
Qed.

Lemma indicators_of_matching (now : Z) (df : DataFrame)
  (sector_filter : option string) :
  _get_data df sector_filter <> [] ->
  exists volume,
    get_national_indicators fl now df sector_filter
    = (match window df sector_filter with
       | [] => 100
       | scores =>
           int_of_float
             (fsub fl 100
                (fdiv fl (inject_Z (sum scores)) (inject_Z (len scores))))
       end,
       count_above 80 (_get_data df sector_filter),
       volume).
Proof.
  intros Hm. unfold get_national_indicators, window, mean.
  destruct (_get_data df sector_filter) as [|r rows]; [congruence|].
  cbn [empty]. eexists. f_equal. f_equal.
  - now destruct (dropna (map risk_score (firstn 50 (r :: rows)))).
  - apply count_above_filter.
Qed.

(** C3 (as amended): when no article matches the sector filter,
    [get_national_indicators] returns stability 0 and critical count 0.
    Otherwise the critical count is the number of matching articles with a
    score above 80, and the stability is [int(100 - mean)], truncated, of
    the scores present in the 50 most recent matching articles: 100 when
    none of them has a score, and, for scores between 0 and 100, 100 minus
    the mean rounded up to the next integer. *)
Theorem national_indicators_spec (now : Z) (df : DataFrame)
  (sector_filter : option string) :
  let matching := _get_data df sector_filter in
  let scores := window df sector_filter in
  let result := get_national_indicators fl now df sector_filter in
  (matching = [] -> result = (0, 0, 0))
  /\
  (matching <> [] ->
   critical_count result = count_above 80 matching
   /\
   (scores = [] -> stability result = 100)
   /\
   (scores <> [] ->
    stability result
    = int_of_float
        (fsub fl 100 (fdiv fl (inject_Z (sum scores)) (inject_Z (len scores)))))
   /\
   (scores <> [] -> Forall (fun v => 0 <= v <= 100) scores ->
    stability result
    = 100 - Qceiling (inject_Z (sum scores) / inject_Z (len scores)))).
Proof.
  intros matching scores result. split.
  - intros Hm. unfold result, get_national_indicators. fold matching.
    now rewrite Hm.
  - intros Hm.
    destruct (indicators_of_matching now df sector_filter Hm) as [volume E].
    fold result scores matching in E. rewrite E.
    unfold stability, critical_count. cbn [fst snd].
    split; [reflexivity|]. split; [|split].
    + now intros ->.
    + intros Hs. destruct scores; [congruence | reflexivity].
    + intros Hs Hrange.
      pose proof (window_length df sector_filter) as Hlen.
      fold scores in Hlen.
      pose proof (sum_bounds scores Hrange) as Hsum.
      destruct scores as [|v vs] eqn:Ev; [congruence|].
      apply stability_ceiling; [|exact Hsum].
      unfold len in *. cbn [List.length] in *. lia.
Qed.

End Indicators.

(** Four matching articles with the scores 10, 11, 10, 10: their mean is
    10.25, and so are all intermediate results exact in binary floats. *)
Definition quarter_df : DataFrame := [scored 10; scored 11; scored 10; scored 10].

Lemma national_indicators_spec_witness :
  stability (get_national_indicators no_rounding 0 quarter_df None) = 89
  /\ critical_count
       (get_national_indicators no_rounding 0 (scored 85 :: quarter_df) None)
     = 1.
Proof.
  assert (Hmono : forall a b : Q, (a <= b)%Q -> (no_rounding a <= no_rounding b)%Q)
    by (intros a b H; exact H).
  assert (Hgrid : forall z : Z, Z.abs z <= 2 ^ 20 ->
                    (no_rounding (z # 64) == z # 64)%Q)
    by (intros z _; reflexivity).
  split.
  - destruct (national_indicators_spec no_rounding Hmono Hgrid 0 quarter_df None)
      as [_ H].
    destruct H as [_ [_ [_ H]]]; [discriminate|].
    rewrite H; [reflexivity | discriminate |].
    repeat constructor; lia.
  - destruct (national_indicators_spec no_rounding Hmono Hgrid 0
                (scored 85 :: quarter_df) None) as [_ H].
    destruct H as [H _]; [discriminate|]. rewrite H. reflexivity.
Defined.

(** C3, counterexample: on the four articles above the code answers
    [int(100 - 10.25) = 89], where 100 minus the rounded mean is 90; and on
    an empty snapshot it answers 0, where the claim asks for 100. *)
Lemma stability_is_not_rounded_mean :
  stability (get_national_indicators no_rounding 0 quarter_df None) = 89
  /\ 100 - py_round (41 # 4) = 90
  /\ stability (get_national_indicators no_rounding 0 [] None) = 0
  /\ ~ stability_is_rounded_mean no_rounding.
Proof.
  split; [reflexivity|]. split; [reflexivity|]. split; [reflexivity|].
  intros claim. specialize (claim 0 quarter_df None).
  vm_compute in claim. discriminate claim.
Qed.

(** *** Forecast *)

(** The effect of one [loc] assignment on one row. *)
Definition assign (label : Z) (value : Q) (row : ChartRow) : ChartRow :=
  if at_time row =? label
  then mkChartRow (at_time row) (actual_trend row) (Some value)
  else row.

(** The effect of a sequence of assignments on one row. *)
Definition assign_all (updates : list (Z * Q)) (row : ChartRow) : ChartRow :=
  fold_left (fun r u => assign (fst u) (snd u) r) updates row.

Lemma set_forecasts_map (labels : list Z) (values : list Q)
  (chart : list ChartRow) :
  set_forecasts labels values chart
  = map (assign_all (combine labels values)) chart.
Proof.
  revert values chart. induction labels as [|l ls IH]; intros values chart.
  - simpl. now rewrite map_id.
  - destruct values as [|v vs]; simpl.
    + now rewrite map_id.
    + rewrite IH. unfold set_forecast. now rewrite map_map.
Qed.

Lemma assign_at_time (label : Z) (value : Q) (row : ChartRow) :
  at_time (assign label value row) = at_time row.
Proof.
  unfold assign. now destruct (at_time row =? label).
Qed.

Lemma assign_forecast (label : Z) (value : Q) (row : ChartRow) :
  ai_forecast (assign label value row)
  = if at_time row =? label then Some value else ai_forecast row.
Proof.
  unfold assign. now destruct (at_time row =? label).
Qed.

Lemma assign_all_at_time (updates : list (Z * Q)) (row : ChartRow) :
  at_time (assign_all updates row) = at_time row.
Proof.
  unfold assign_all. revert row.
  induction updates as [|u us IH]; intros row; simpl; [reflexivity|].
  now rewrite IH, assign_at_time.
Qed.

Lemma timed_nil (df : DataFrame) :
  timed df = [] <-> existsb (fun r => notna (published_dt r)) df = false.
Proof.
  induction df as [|r rows IH]; simpl; [tauto|].
  destruct (published_dt r); simpl; [split; discriminate | exact IH].
Qed.

Lemma item_last_some {A} (xs : list A) :
  xs <> [] -> exists x, item_last xs = Some x.
Proof.
  induction xs as [|x xs IH]; [congruence|]. intros _.
  destruct xs as [|y ys]; [now exists x|].
  destruct IH as [z Hz]; [discriminate|]. exists z. exact Hz.
Qed.

Section Forecast.

Variable fl : Q -> Q.

(** The hourly means [get_forecast] works on. *)
Definition hourly_history (df : DataFrame) (sector_filter : option string)
  : list (Z * Q) :=
  resample_hourly fl (timed (_get_data df sector_filter)).

(** The four assignments of projected values, as (label, value). *)
Definition projections (history : list (Z * Q)) (last_date : Z)
  : list (Z * Q) :=
  combine
    [last_date + hours 1; last_date + hours 2;
     last_date + hours 3; last_date + hours 4]
    (predict (fit (map snd history)) (arange (len (map snd history)) 4)).

(** The row of the finished chart at index [t]. *)
Definition chart_row (history : list (Z * Q)) (last_date : Z) (last_value : Q)
  (t : Z) : ChartRow :=
  assign_all (projections history last_date)
    (assign last_date last_value (mkChartRow t (lookup t history) None)).

(** [get_forecast] written out: the guards, then the chart as one [map]
    over its index. *)
Lemma get_forecast_unfold (df : DataFrame) (sector_filter : option string) :
  get_forecast fl df sector_filter
  = match timed (_get_data df sector_filter) with
    | [] => None
    | _ =>
        if len (hourly_history df sector_filter) <? 3 then None
        else
          match item_last (hourly_history df sector_filter) with
          | None => None
          | Some (last_date, last_value) =>
              Some
                (map (chart_row (hourly_history df sector_filter)
                        last_date last_value)
                   (map fst (hourly_history df sector_filter)
                      ++ [last_date + hours 1; last_date + hours 2;
                          last_date + hours 3; last_date + hours 4]))
          end
    end.
Proof.
  unfold get_forecast, hourly_history.
  destruct (_get_data df sector_filter) as [|r rows] eqn:E; [reflexivity|].
  cbn [empty].
  destruct (existsb (fun r0 => notna (published_dt r0)) (r :: rows)) eqn:Ex.
  - destruct (timed (r :: rows)) as [|c cs] eqn:Et.
    + apply timed_nil in Et. congruence.
    + cbn [negb]. cbv zeta.
      destruct (len (resample_hourly fl (c :: cs)) <? 3); [reflexivity|].
      destruct (item_last (resample_hourly fl (c :: cs)))
        as [[last_date last_value]|]; [|reflexivity].
      rewrite set_forecasts_map. unfold set_forecast.
      rewrite !map_map. reflexivity.
  - apply timed_nil in Ex. now rewrite Ex.
Qed.

Lemma projections_shape (history : list (Z * Q)) (last_date : Z) :
  exists p1 p2 p3 p4,
    projections history last_date
    = [(last_date + hours 1, p1); (last_date + hours 2, p2);
       (last_date + hours 3, p3); (last_date + hours 4, p4)].
Proof.
  unfold projections, predict. cbn [arange map combine].
  do 4 eexists. reflexivity.
Qed.

Lemma chart_row_at_time (history : list (Z * Q)) (last_date : Z)
  (last_value : Q) (t : Z) :
  at_time (chart_row history last_date last_value t) = t.
Proof.
  unfold chart_row. now rewrite assign_all_at_time, assign_at_time.
Qed.

Ltac decide_labels :=
  repeat match goal with
         | |- context [?a =? ?b] => destruct (Z.eqb_spec a b)
         end.

Lemma chart_row_forecast (history : list (Z * Q)) (last_date : Z)
  (last_value : Q) (t : Z) :
  (t < last_date ->
   ai_forecast (chart_row history last_date last_value t) = None) /\
  (t = last_date ->
   ai_forecast (chart_row history last_date last_value t) = Some last_value) /\
  (forall k, In k [1; 2; 3; 4] -> t = last_date + hours k ->
   exists p, ai_forecast (chart_row history last_date last_value t) = Some p).
Proof.
  unfold chart_row.
  destruct (projections_shape history last_date) as [p1 [p2 [p3 [p4 ->]]]].
  assert (H1 : 0 < hours 1) by reflexivity.
  assert (H2 : hours 1 < hours 2) by reflexivity.
  assert (H3 : hours 2 < hours 3) by reflexivity.
  assert (H4 : hours 3 < hours 4) by reflexivity.
  generalize dependent (lookup t history). intros actual.
  unfold assign_all. cbn [fold_left fst snd].
  rewrite !assign_forecast, !assign_at_time. cbn [at_time ai_forecast].
  split; [|split].
  - intros Ht. decide_labels; try (exfalso; lia). reflexivity.
  - intros ->. decide_labels; try (exfalso; lia). reflexivity.
  - intros k Hk ->.
    assert (Hpos : 0 < hours k)
      by (destruct Hk as [<- | [<- | [<- | [<- | []]]]]; reflexivity).
    decide_labels; try (exfalso; lia); eauto.
    exfalso. destruct Hk as [<- | [<- | [<- | [<- | []]]]]; congruence.
Qed.

Lemma hour_labels_length (first : Z) (count : nat) :
  List.length (hour_labels first count) = count.
Proof.
  revert first. induction count as [|k IH]; intros first; simpl;
    [reflexivity | now rewrite IH].
Qed.

(** The index of the resampled series: consecutive hours. *)
Lemma resample_hourly_labels (cells : list (Z * option Z)) :
  exists first,
    map fst (resample_hourly fl cells)
    = hour_labels first (List.length (resample_hourly fl cells)).
Proof.
  unfold resample_hourly. destruct (map fst cells) as [|t ts].
  - now exists 0.
  - eexists. rewrite map_map, length_map, hour_labels_length. cbn [fst].
    rewrite map_id. reflexivity.
Qed.

(** C5: [get_forecast] returns null when no matching article has a
    parseable timestamp and when the matching articles span fewer than 3
    hourly buckets, and a chart otherwise.  The chart's index is the
    observed hours, which are consecutive, followed by exactly the 4 next
    hours; its forecast
    channel is empty before the last observed hour, holds the last observed
    hourly mean at that hour, and a projected value at each added hour. *)
Theorem get_forecast_spec (df : DataFrame) (sector_filter : option string) :
  let history := hourly_history df sector_filter in
  (timed (_get_data df sector_filter) = [] ->
   get_forecast fl df sector_filter = None)
  /\
  (len history < 3 -> get_forecast fl df sector_filter = None)
  /\
  (timed (_get_data df sector_filter) <> [] -> 3 <= len history ->
   exists chart, get_forecast fl df sector_filter = Some chart)
  /\
  (forall chart,
      get_forecast fl df sector_filter = Some chart ->
      3 <= len history /\
      exists first last_date last_value,
        map fst history = hour_labels first (List.length history) /\
        item_last history = Some (last_date, last_value) /\
        map at_time chart
        = map fst history
            ++ [last_date + hours 1; last_date + hours 2;
                last_date + hours 3; last_date + hours 4] /\
        (forall row, In row chart ->
           (at_time row < last_date -> ai_forecast row = None) /\
           (at_time row = last_date -> ai_forecast row = Some last_value) /\
           (forall k, In k [1; 2; 3; 4] ->
              at_time row = last_date + hours k ->
              exists p, ai_forecast row = Some p))).
Proof.
  intros history. rewrite get_forecast_unfold. fold history.
  split; [|split; [|split]].
  - now intros ->.
  - intros Hlen. destruct (timed (_get_data df sector_filter)); [reflexivity|].
    apply Z.ltb_lt in Hlen. now rewrite Hlen.
  - intros Ht Hlen.
    destruct (timed (_get_data df sector_filter)); [congruence|].
    apply Z.ltb_ge in Hlen. rewrite Hlen.
    destruct (item_last_some history) as [[last_date last_value] ->];
      [|eauto].
    intros E. rewrite E in Hlen. discriminate Hlen.
  - intros chart.
    destruct (timed (_get_data df sector_filter)); [discriminate|].
    destruct (len history <? 3) eqn:Hlen; [discriminate|].
    apply Z.ltb_ge in Hlen.
    destruct (item_last history) as [[last_date last_value]|];
      [|discriminate].
    intros [= <-]. split; [exact Hlen|].
    destruct (resample_hourly_labels (timed (_get_data df sector_filter)))
      as [first Hlabels].
    exists first, last_date, last_value.
    split; [exact Hlabels|]. split; [reflexivity|]. split.
    + rewrite map_map. erewrite map_ext; [apply map_id|].
      intros t. apply chart_row_at_time.
    + intros row Hin. apply in_map_iff in Hin. destruct Hin as [t [<- _]].
      rewrite chart_row_at_time. apply chart_row_forecast.
Qed.

End Forecast.

(** Three articles with the score 40, one in each of three consecutive
    hours. *)
Definition timed_row (score t : Z) : DfRow :=
  mkDfRow 0 "" "" "Warning" (Some score) "FINANCE" None None 0 (Some t).

Definition flat_df : DataFrame :=
  [timed_row 40 (hours 2 + 7); timed_row 40 (hours 1 + 5); timed_row 40 0].

Lemma get_forecast_spec_witness :
  exists chart,
    get_forecast no_rounding flat_df None = Some chart /\
    map at_time chart
    = [0; hours 1; hours 2; hours 3; hours 4; hours 5; hours 6] /\
    Forall (fun row =>
              match ai_forecast row with
              | Some p => (p == 40)%Q
              | None => at_time row < hours 2
              end) chart.
Proof.
  destruct (get_forecast_spec no_rounding flat_df None) as [_ [_ [H _]]].
  destruct H as [chart E]; [discriminate | now vm_compute |].
  exists chart. split; [exact E|].
  vm_compute in E. injection E as <-.
  split; [reflexivity|]. repeat constructor.
Defined.

(** Two hourly buckets are not enough. *)
Example get_forecast_two_buckets :
  get_forecast no_rounding [timed_row 40 (hours 1 + 5); timed_row 10 0] None
  = None.
Proof.
  reflexivity.
Qed.

End AnalyticsSpec.

(** * Further properties *)

(** ** The engine's rule-based detectors and its normaliser *)

Module EngineExtra.
Import Py PyFacts Engine EngineSpec.

Lemma lower_char_idempotent (c : ascii) :
  lower_char (lower_char c) = lower_char c.
Proof.
  destruct c as [[|] [|] [|] [|] [|] [|] [|] [|]]; reflexivity.
Qed.

Lemma lower_idempotent (s : string) : lower (lower s) = lower s.
Proof.
  induction s as [|c s IH]; simpl; [reflexivity|].
  now rewrite lower_char_idempotent, IH.
Qed.

Lemma AllChars_occurs (P : ascii -> Prop) (c : ascii) (s : string) :
  AllChars P s -> Occurs (String c EmptyString) s -> P c.
Proof.
  intros H [pre [post ->]]. induction pre as [|a pre IH]; simpl in H.
  - apply H.
  - apply IH, H.
Qed.

Lemma Spaced_no_double_blank (b : bool) (s : string) :
  Spaced b s -> ~ Occurs "  " s.
Proof.
  intros H [pre [post ->]]. revert b H.
  induction pre as [|a pre IH]; intros b H; simpl in H.
  - destruct H as [_ [_ [_ [H _]]]]. discriminate H.
  - destruct (is_space a); [destruct H as [_ [_ H]]|]; eapply IH; exact H.
Qed.

Lemma spaced_chars (b : bool) (s : string) :
  AllChars Permitted s -> Spaced b s ->
  AllChars (fun c => (is_word c || is_punct c) = true \/ c = " "%char) s.
Proof.
  revert b. induction s as [|c s IH]; intros b; simpl; [trivial|].
  intros [Hc Hs]. unfold Permitted, permitted in Hc.
  destruct (is_space c) eqn:E.
  - intros [-> [_ H]]. split; [now right | exact (IH true Hs H)].
  - intros H. split; [|exact (IH false Hs H)].
    left. destruct (is_word c); [reflexivity | exact Hc].
Qed.

Lemma preprocess_normal (get_text : string -> string) (text : option string) :
  Normal (preprocess get_text text).
Proof.
  destruct text as [[|c s]|]; try apply strip_sub_normal;
    constructor; simpl; auto.
Qed.

(** Whatever the parser returns, the output of [preprocess] is made of
    word characters, the seven punctuation marks and single blanks only,
    with no blank at either end; so it holds no angle bracket and no
    ampersand, and never two blanks in a row. *)
Theorem preprocess_output_normal (get_text : string -> string)
  (text : option string) :
  let out := preprocess get_text text in
  AllChars (fun c => (is_word c || is_punct c) = true \/ c = " "%char) out /\
  strip out = out /\
  ~ Occurs "  " out /\
  ~ Occurs "<" out /\ ~ Occurs ">" out /\ ~ Occurs "&" out.
Proof.
  intros out.
  destruct (preprocess_normal get_text text)
    as [Hchars Hspaced Hlead Htrail].
  fold out in Hchars, Hspaced, Hlead, Htrail.
  split; [|split; [|split; [|split; [|split]]]].
  - exact (spaced_chars false out Hchars Hspaced).
  - unfold strip. now rewrite lstrip_fixed.
  - exact (Spaced_no_double_blank false out Hspaced).
  - intros H. pose proof (AllChars_occurs _ _ _ Hchars H) as Hc. discriminate Hc.
  - intros H. pose proof (AllChars_occurs _ _ _ Hchars H) as Hc. discriminate Hc.
  - intros H. pose proof (AllChars_occurs _ _ _ Hchars H) as Hc. discriminate Hc.
Qed.

(** [detect_future_event] answers 1 exactly when one of its nine cue
    phrases occurs in the lower-cased text, and 0 otherwise; the letter
    case of the text does not matter. *)
Theorem detect_future_event_spec (text : string) :
  (detect_future_event text = 1%Z <->
   exists word, In word future_keywords /\ Occurs word (lower text)) /\
  (detect_future_event text = 0%Z <->
   forall word, In word future_keywords -> ~ Occurs word (lower text)) /\
  detect_future_event (lower text) = detect_future_event text.
Proof.
  unfold detect_future_event. rewrite lower_idempotent.
  pose proof (any_keyword_spec future_keywords (lower text) "") as H.
  unfold rule_fires in H; simpl snd in H.
  destruct (any_keyword future_keywords (lower text)).
  - split; [|split]; [| |reflexivity].
    + split; [intros _; now apply H | reflexivity].
    + split; [discriminate|]. intros Hnone. exfalso.
      destruct (proj1 H eq_refl) as [word [Hin Hocc]].
      exact (Hnone word Hin Hocc).
  - split; [|split]; [| |reflexivity].
    + split; [discriminate|]. intros Hex. apply H in Hex. discriminate Hex.
    + split; [|reflexivity]. intros _ word Hin Hocc.
      assert (Hex : false = true) by (apply H; now exists word).
      discriminate Hex.
Qed.

Lemma scan_rules_in (rules : list (string * list string)) (t sector : string) :
  scan_rules rules t = Some sector -> In sector (map fst rules).
Proof.
  induction rules as [|[s k] rest IH]; simpl; [discriminate|].
  destruct (any_keyword k t).
  - intros [= ->]. now left.
  - intros H. right. now apply IH.
Qed.

(** [detect_sector] answers GENERAL or the name of a configured rule,
    nothing else; with no rule configured it answers GENERAL; and the
    letter case of the text does not matter. *)
Theorem detect_sector_range (self : RiskEngine) (text : string) :
  (detect_sector self text = "GENERAL" \/
   In (detect_sector self text) (map fst (sector_rules self))) /\
  (sector_rules self = [] -> detect_sector self text = "GENERAL") /\
  detect_sector self (lower text) = detect_sector self text.
Proof.
  unfold detect_sector. rewrite lower_idempotent. split; [|split].
  - destruct (scan_rules (sector_rules self) (lower text)) as [sector|] eqn:E.
    + right. exact (scan_rules_in _ _ _ E).
    + now left.
  - now intros ->.
  - reflexivity.
Qed.

Section Monotone.

Variable fl : Q -> Q.
Hypothesis fl_monotone : forall a b : Q, a <= b -> fl a <= fl b.
Hypothesis fl_integer :
  forall z : Z, (Z.abs z <= 2 ^ 53)%Z -> fl (inject_Z z) == inject_Z z.

Lemma scaled_score_monotone (base k : Z) (c1 c2 : Q) :
  (0 <= base)%Z -> (0 <= k)%Z -> (base + k <= 2 ^ 53)%Z ->
  0 <= c1 -> c1 <= c2 -> c2 <= 1 ->
  (int_of_float (fadd fl (base # 1) (fmul fl c1 (k # 1)))
   <= int_of_float (fadd fl (base # 1) (fmul fl c2 (k # 1))))%Z.
Proof.
  intros Hb Hk Hsum H0 H12 H1.
  destruct (scaled_score fl fl_monotone fl_integer base k c1 Hb Hk Hsum)
    as [-> _]; [split; [exact H0 | now apply Qle_trans with c2]|].
  destruct (scaled_score fl fl_monotone fl_integer base k c2 Hb Hk Hsum)
    as [-> _]; [split; [now apply Qle_trans with c1 | exact H1]|].
  apply Qfloor_resp_le. unfold fadd, fmul. apply fl_monotone.
  apply Qplus_le_compat; [apply Qle_refl|]. apply fl_monotone.
  apply Qmult_le_compat_r; [exact H12|].
  unfold Qle; simpl; lia.
Qed.

(** Two answers of the classifier with the same top label: the more
    confident one never gets the lower score, and both get the same
    category. *)
Theorem analyze_risk_monotone (self : RiskEngine) (text1 text2 L : string)
  (ls1 ls2 : list string) (c1 c2 : Q) (cs1 cs2 : list Q)
  (category1 category2 : string) (score1 score2 : Z) :
  classifier self text1 (risk_labels self)
    = Ok (mkClassification (L :: ls1) (c1 :: cs1)) ->
  classifier self text2 (risk_labels self)
    = Ok (mkClassification (L :: ls2) (c2 :: cs2)) ->
  0 <= c1 -> c1 <= c2 -> c2 <= 1 ->
  analyze_risk fl self text1 = Ok (category1, score1) ->
  analyze_risk fl self text2 = Ok (category2, score2) ->
  category1 = category2 /\ (score1 <= score2)%Z.
Proof.
  intros E1 E2 H0 H12 H1. unfold analyze_risk. rewrite E1, E2.
  cbn [bind item0 labels scores].
  destruct (in_list L critical_labels).
  { intros [= <- <-] [= <- <-]. split; [reflexivity|].
    apply (scaled_score_monotone 80 20); try lia; assumption. }
  destruct (in_list L warning_labels).
  { intros [= <- <-] [= <- <-]. split; [reflexivity|].
    apply (scaled_score_monotone 50 29); try lia; assumption. }
  destruct (String.eqb L "Positive Growth");
    intros [= <- <-] [= <- <-]; split; (reflexivity || lia).
Qed.

End Monotone.

Definition answers (confidence : Q) : RiskEngine :=
  mkRiskEngine
    (fun text _ =>
       Ok (mkClassification ["Economic Crisis"]
             [if String.eqb text "calm" then 1 # 10 else confidence]))
    [] [] default_risk_labels.

Lemma analyze_risk_monotone_witness :
  analyze_risk no_rounding (answers (9 # 10)) "calm" = Ok ("Warning", 52%Z) /\
  analyze_risk no_rounding (answers (9 # 10)) "crash" = Ok ("Warning", 76%Z) /\
  (52 <= 76)%Z.
Proof.
  split; [reflexivity|]. split; [reflexivity|].
  refine (proj2 (analyze_risk_monotone no_rounding
                   (fun a b H => H) (fun z _ => Qeq_refl (inject_Z z))
                   (answers (9 # 10)) "calm" "crash" "Economic Crisis"
                   [] [] (1 # 10) (9 # 10) [] [] "Warning" "Warning" 52 76
                   eq_refl eq_refl _ _ _ eq_refl eq_refl));
    unfold Qle; simpl; lia.
Defined.

End EngineExtra.

(** ** What a cycle does to the store *)

Module PipelineExtra.
Import Py Database Pipeline DatabaseSpec PipelineSpec.

(** Every id is smaller than the ids of the rows inserted after it, and
    none exceeds [top]. *)
Fixpoint AscendingTo (top : Z) (rows : list Row) : Prop :=
  match rows with
  | [] => True
  | r :: rest =>
      (id r <= top)%Z /\ Forall (fun x => (id r < id x)%Z) rest /\
      AscendingTo top rest
  end.

(** The ids grow in insertion order and the AUTOINCREMENT counter is at
    least the largest of them. *)
Definition Ascending (w : World) : Prop :=
  AscendingTo (sqlite_sequence (store w)) (articles (store w)).

(** [w'] holds the rows of [w], unchanged and in place, followed by at most
    [k] new ones. *)
Definition GrowsBy (k : nat) (w w' : World) : Prop :=
  exists added,
    articles (store w') = articles (store w) ++ added /\
    (List.length added <= k)%nat.

Lemma GrowsBy_refl (w : World) : GrowsBy 0 w w.
Proof.
  exists []. split; [now rewrite app_nil_r | reflexivity].
Qed.

Lemma GrowsBy_trans (j k : nat) (w1 w2 w3 : World) :
  GrowsBy j w1 w2 -> GrowsBy k w2 w3 -> GrowsBy (j + k) w1 w3.
Proof.
  intros [a [Ha La]] [b [Hb Lb]]. exists (a ++ b). split.
  - now rewrite Hb, Ha, app_assoc.
  - rewrite length_app. lia.
Qed.

Lemma GrowsBy_weaken (j k : nat) (w w' : World) :
  (j <= k)%nat -> GrowsBy j w w' -> GrowsBy k w w'.
Proof.
  intros Hjk [a [Ha La]]. exists a. split; [exact Ha | lia].
Qed.

Lemma save_article_grows (d : Article) (w : World) :
  GrowsBy 1 w (snd (save_article d w)).
Proof.
  unfold GrowsBy.
  destruct (save_article_store d w) as [E | [_ E]]; rewrite E.
  - exists []. split; [now rewrite app_nil_r | simpl; lia].
  - eexists. split; [reflexivity | simpl; lia].
Qed.

Lemma AscendingTo_app (top : Z) (rows : list Row) (r : Row) :
  AscendingTo top rows -> id r = (top + 1)%Z ->
  AscendingTo (top + 1) (rows ++ [r]).
Proof.
  intros H Hr. induction rows as [|x rows IH]; cbn [app AscendingTo].
  - split; [lia|]. split; [constructor | exact I].
  - destruct H as [Hx [Hlt Hrows]]. split; [lia|]. split.
    + apply Forall_app. split; [exact Hlt|]. constructor; [lia | constructor].
    + now apply IH.
Qed.

Lemma save_article_ascending (d : Article) (w : World) :
  Ascending w -> Ascending (snd (save_article d w)).
Proof.
  intros H. unfold Ascending.
  destruct (save_article_store d w) as [E | [_ E]]; rewrite E;
    [exact H|]. cbn [articles sqlite_sequence].
  now apply AscendingTo_app.
Qed.

(** Each iteration adds at most [k] rows: the loop adds at most [k] rows
    per element. *)
Lemma for_each_grows {A} (k : nat) (body : A -> IO unit) :
  (forall x w, GrowsBy k w (snd (body x w))) ->
  forall xs w, GrowsBy (k * List.length xs) w (snd (for_each xs body w)).
Proof.
  intros Hbody xs. induction xs as [|x xs IH]; intros w; simpl.
  - rewrite Nat.mul_0_r. apply GrowsBy_refl.
  - unfold bindIO. specialize (Hbody x w).
    destruct (body x w) as [[[]|e] w']; simpl in *.
    + apply GrowsBy_weaken with (k + k * List.length xs)%nat; [lia|].
      eapply GrowsBy_trans; [exact Hbody | apply IH].
    + apply GrowsBy_weaken with k; [lia | exact Hbody].
Qed.

Section Built.

Variable get_text : string -> string.
Variable fl : Q -> Q.
Variable parse : string -> PyResult Feed.
Variable engine : Engine.RiskEngine.

Abbreviation process_entry := (process_entry get_text fl engine).
Abbreviation process_feed_body := (process_feed_body get_text fl parse engine).
Abbreviation process_feed := (process_feed get_text fl parse engine).
Abbreviation run_sources := (run_sources get_text fl parse engine).

(** The article [process_entry] assembles from an entry, or the exception
    raised before it gets to [save_article]. *)
Definition entry_article (source_config : Source) (entry : Entry)
  : PyResult Article :=
  match entry_title entry with
  | None => Raised "object has no attribute 'title'"
  | Some raw_title =>
      let clean_title := Engine.preprocess get_text (Some raw_title) in
      match Engine.analyze_risk fl engine clean_title with
      | Raised e => Raised e
      | Ok (category, risk) =>
          match entry_link entry with
          | None => Raised "object has no attribute 'link'"
          | Some l =>
              Ok (mkArticle clean_title l
                    (match entry_published entry with
                     | Some p => p
                     | None => "Unknown"
                     end)
                    (name source_config) category risk
                    (Engine.detect_sector engine clean_title)
                    (fst (Engine.get_location engine clean_title))
                    (snd (Engine.get_location engine clean_title))
                    (Engine.detect_future_event clean_title))
          end
      end
  end.

(** [process_entry] is: assemble the article, save it, report a new row. *)
Lemma process_entry_eq (source_config : Source) (entry : Entry) (w : World) :
  process_entry source_config entry w
  = match entry_article source_config entry with
    | Raised e => (Raised e, w)
    | Ok d =>
        match save_article d w with
        | (Ok true, w') =>
            (Ok tt,
             print ("[" ++ sector d ++ "] Risk:" ++ str_of_int (risk_score d)
                        ++ "% -> " ++ slice_to 40 (title d) ++ "...") w')
        | (Ok false, w') => (Ok tt, w')
        | (Raised e, w') => (Raised e, w')
        end
    end.
Proof.
  unfold Pipeline.process_entry, entry_article, bindIO, attr, lift, ret, raise.
  destruct (entry_title entry) as [raw_title|]; [|reflexivity].
  destruct (Engine.analyze_risk fl engine _) as [[category risk]|];
    [|reflexivity].
  destruct (Engine.get_location engine _) as [la lo].
  destruct (entry_link entry) as [l|]; [|reflexivity].
  cbn [fst snd sector risk_score title].
  match goal with
  | |- context [save_article ?d w] =>
      destruct (save_article d w) as [[[|]|e] w']
  end; reflexivity.
Qed.

(** The store after [process_entry]: untouched, or what saving the
    assembled article leaves. *)
Lemma process_entry_store (source_config : Source) (entry : Entry)
  (w : World) :
  store (snd (process_entry source_config entry w)) = store w \/
  exists d,
    entry_article source_config entry = Ok d /\
    store (snd (process_entry source_config entry w))
    = store (snd (save_article d w)).
Proof.
  rewrite process_entry_eq.
  destruct (entry_article source_config entry) as [d|e]; [|now left].
  right. exists d. split; [reflexivity|].
  now destruct (save_article d w) as [[[|]|e] w'].
Qed.

(** A property of the world that [save_article] keeps for the articles
    [process_entry] assembles is kept by a whole cycle. *)
Lemma run_sources_preserves (I : World -> Prop) :
  (forall line w, I w -> I (print line w)) ->
  (forall source_config entry d w,
      entry_article source_config entry = Ok d ->
      I w -> I (snd (save_article d w))) ->
  forall feed_list w, I w -> I (snd (run_sources feed_list w)).
Proof.
  intros Hprint Hsave.
  assert (Hentry : forall source_config entry w,
             I w -> I (snd (process_entry source_config entry w))).
  { intros source_config entry w Hw. rewrite process_entry_eq.
    destruct (entry_article source_config entry) as [d|e] eqn:E;
      [|exact Hw].
    specialize (Hsave source_config entry d w E Hw).
    destruct (save_article d w) as [[[|]|e] w']; simpl in *; auto. }
  assert (Hfeed : forall source_config w,
             I w -> I (snd (process_feed source_config w))).
  { intros source_config w Hw.
    assert (H : I (snd (process_feed_body source_config w))).
    { unfold Pipeline.process_feed_body, bindIO, lift, ret.
      destruct (parse (url source_config)) as [feed|e]; [|exact Hw].
      destruct (entries feed) as [|e0 es]; [exact Hw|].
      apply (for_each_preserves I); [|exact Hw].
      intros x w0. apply Hentry. }
    unfold Pipeline.process_feed, try_except.
    destruct (process_feed_body source_config w) as [[[]|e] w'];
      simpl in *; auto. }
  intros feed_list w Hw. unfold Pipeline.run_sources.
  apply (for_each_preserves I); [|exact Hw].
  intros x w0. apply Hfeed.
Qed.

(** Every stored row holds an article that satisfies [P], as soon as the
    rows stored before do and every article [process_entry] assembles
    does. *)
Lemma run_sources_rows (P : Article -> Prop) :
  (forall source_config entry d,
      entry_article source_config entry = Ok d -> P d) ->
  forall feed_list w,
    Forall (fun r => P (data r)) (articles (store w)) ->
    Forall (fun r => P (data r))
      (articles (store (snd (run_sources feed_list w)))).
Proof.
  intros Hbuilt.
  apply (run_sources_preserves
           (fun w => Forall (fun r => P (data r)) (articles (store w)))).
  - intros line w H. exact H.
  - intros source_config entry d w E H. apply Forall_forall. intros r Hr.
    destruct (save_article_rows d w r Hr) as [Hold | ->].
    + exact (proj1 (Forall_forall _ _) H r Hold).
    + exact (Hbuilt source_config entry d E).
Qed.

(** *** What is stored *)

(** The shape of an article as the pipeline assembles it: a title without
    markup brackets or outer blanks, a sector that is GENERAL or
    configured, a 0/1 flag, and coordinates that come in pairs. *)
Definition WellFormed (d : Article) : Prop :=
  Engine.strip (title d) = title d /\
  ~ Occurs "<" (title d) /\ ~ Occurs ">" (title d) /\
  (sector d = "GENERAL" \/
   In (sector d) (map fst (Engine.sector_rules engine))) /\
  (is_upcoming d = 0%Z \/ is_upcoming d = 1%Z) /\
  (lat d = None <-> lon d = None).

Lemma entry_article_well_formed (source_config : Source) (entry : Entry)
  (d : Article) :
  entry_article source_config entry = Ok d -> WellFormed d.
Proof.
  unfold entry_article.
  destruct (entry_title entry) as [raw_title|]; [|discriminate].
  destruct (Engine.analyze_risk fl engine _) as [[category risk]|];
    [|discriminate].
  destruct (entry_link entry) as [l|]; [|discriminate].
  intros [= <-]. unfold WellFormed.
  cbn [title sector is_upcoming lat lon].
  destruct (EngineExtra.preprocess_normal get_text (Some raw_title))
    as [Hchars Hspaced Hlead Htrail].
  split; [|split; [|split; [|split; [|split]]]].
  - unfold Engine.strip. now rewrite EngineSpec.lstrip_fixed.
  - intros H.
    pose proof (EngineExtra.AllChars_occurs _ _ _ Hchars H) as Hc.
    discriminate Hc.
  - intros H.
    pose proof (EngineExtra.AllChars_occurs _ _ _ Hchars H) as Hc.
    discriminate Hc.
  - unfold Engine.detect_sector.
    destruct (Engine.scan_rules (Engine.sector_rules engine) _)
      as [sector|] eqn:E; [right | now left].
    exact (EngineExtra.scan_rules_in _ _ _ E).
  - unfold Engine.detect_future_event.
    destruct (Engine.any_keyword Engine.future_keywords _); auto.
  - apply scan_locations_paired.
Qed.

(** A cycle keeps every stored article well formed, whatever the feeds
    serve and whichever sources fail. *)
Theorem run_sources_well_formed (feed_list : list Source) (w : World) :
  Forall (fun r => WellFormed (data r)) (articles (store w)) ->
  Forall (fun r => WellFormed (data r))
    (articles (store (snd (run_sources feed_list w)))).
Proof.
  apply run_sources_rows. exact entry_article_well_formed.
Qed.

(** *** Growth of the table *)

Lemma process_entry_grows (source_config : Source) (entry : Entry)
  (w : World) :
  GrowsBy 1 w (snd (process_entry source_config entry w)).
Proof.
  unfold GrowsBy.
  destruct (process_entry_store source_config entry w) as [E | [d [_ E]]];
    rewrite E.
  - exists []. split; [now rewrite app_nil_r | simpl; lia].
  - apply save_article_grows.
Qed.

Lemma process_feed_grows (source_config : Source) (w : World) :
  GrowsBy 5 w (snd (process_feed source_config w)).
Proof.
  assert (H : GrowsBy 5 w (snd (process_feed_body source_config w))).
  { unfold Pipeline.process_feed_body, bindIO, lift, ret.
    destruct (parse (url source_config)) as [feed|e];
      [|apply GrowsBy_weaken with 0%nat; [lia | apply GrowsBy_refl]].
    destruct (entries feed) as [|e0 es];
      [apply GrowsBy_weaken with 0%nat; [lia | apply GrowsBy_refl]|].
    apply GrowsBy_weaken
      with (1 * List.length (firstn 5 (e0 :: es)))%nat.
    - pose proof (firstn_le_length 5 (e0 :: es)) as H1.
      pose proof (length_firstn 5 (e0 :: es)) as H2. lia.
    - apply for_each_grows. intros x w0. apply process_entry_grows. }
  unfold Pipeline.process_feed, try_except.
  destruct (process_feed_body source_config w) as [[[]|e] w']; exact H.
Qed.

(** A cycle only appends: the rows stored before it are still there,
    unchanged and in place, and it adds at most 5 rows per source. *)
Theorem run_sources_append_only (feed_list : list Source) (w : World) :
  exists added,
    articles (store (snd (run_sources feed_list w)))
    = articles (store w) ++ added /\
    (List.length added <= 5 * List.length feed_list)%nat.
Proof.
  unfold Pipeline.run_sources.
  apply (for_each_grows 5 process_feed). intros x w0.
  apply process_feed_grows.
Qed.

(** A cycle keeps the ids growing in insertion order and below the
    AUTOINCREMENT counter: a later article never gets the id of an earlier
    one or a smaller id, whichever sources fail and whichever inserts are
    ignored. *)
Theorem run_sources_ids_ascending (feed_list : list Source) (w : World) :
  Ascending w -> Ascending (snd (run_sources feed_list w)).
Proof.
  apply (run_sources_preserves Ascending).
  - intros line w0 H. exact H.
  - intros source_config entry d w0 _. apply save_article_ascending.
Qed.

(** *** An entry that cannot be processed *)

Lemma for_each_raise {A} (body : A -> IO unit) (before : list A) (x : A)
  (after : list A) (e : string) (w w1 w2 : World) :
  for_each before body w = (Ok tt, w1) ->
  body x w1 = (Raised e, w2) ->
  for_each (before ++ x :: after) body w = (Raised e, w2).
Proof.
  revert w. induction before as [|b before IH]; intros w; simpl.
  - intros [= <-] Hx. unfold bindIO. now rewrite Hx.
  - unfold bindIO. destruct (body b w) as [[[]|e0] w0]; [|discriminate].
    apply IH.
Qed.

(** When an entry among the first five of a feed cannot be turned into an
    article (no title, no link, or the classifier raises), nothing is
    stored for it, the entries after it are not processed at all, and the
    source's error is printed; what the entries before it stored stays. *)
Theorem process_feed_failing_entry (source_config : Source) (feed : Feed)
  (before : list Entry) (entry : Entry) (after : list Entry)
  (exc : string) (w w1 : World) :
  parse (url source_config) = Ok feed ->
  firstn 5 (entries feed) = before ++ entry :: after ->
  for_each before (process_entry source_config) w = (Ok tt, w1) ->
  entry_article source_config entry = Raised exc ->
  process_feed source_config w
  = (Ok tt,
     print (" Error processing " ++ name source_config ++ ": " ++ exc) w1).
Proof.
  intros Hparse Hfirst Hbefore Hentry.
  unfold Pipeline.process_feed, try_except, Pipeline.process_feed_body,
    bindIO, lift, ret.
  rewrite Hparse.
  destruct (entries feed) as [|e0 es] eqn:E.
  - destruct before; discriminate Hfirst.
  - rewrite Hfirst.
    rewrite (for_each_raise (process_entry source_config) before entry after
               exc w w1 w1 Hbefore); [reflexivity|].
    rewrite process_entry_eq. now rewrite Hentry.
Qed.

(** *** Polling the same feeds again *)

(** The articles a source hands to [save_article], in order: those of its
    first five entries, up to the first entry that raises. *)
Fixpoint entries_plan (source_config : Source) (es : list Entry)
  : list Article :=
  match es with
  | [] => []
  | entry :: rest =>
      match entry_article source_config entry with
      | Ok d => d :: entries_plan source_config rest
      | Raised _ => []
      end
  end.

Definition feed_plan (source_config : Source) : list Article :=
  match parse (url source_config) with
  | Ok feed => entries_plan source_config (firstn 5 (entries feed))
  | Raised _ => []
  end.

Definition insert_all (ds : list Article) (st : Store) : Store :=
  fold_left (fun st d => fst (insert_or_ignore st d)) ds st.

Lemma save_article_healthy (d : Article) (w : World) :
  faults w = [] ->
  exists b,
    save_article d w
    = (Ok b, set_store (fst (insert_or_ignore (store w) d)) w).
Proof.
  intros H. unfold save_article, next_fault. rewrite H.
  destruct (insert_or_ignore (store w) d) as [st rowcount].
  now exists (0 <? rowcount)%Z.
Qed.

Lemma process_entries_healthy (source_config : Source) (es : list Entry)
  (w : World) :
  faults w = [] ->
  store (snd (for_each es (process_entry source_config) w))
  = insert_all (entries_plan source_config es) (store w) /\
  faults (snd (for_each es (process_entry source_config) w)) = [].
Proof.
  revert w. induction es as [|entry es IH]; intros w Hf; simpl.
  - now split.
  - unfold bindIO. rewrite process_entry_eq.
    destruct (entry_article source_config entry) as [d|e]; [|now split].
    destruct (save_article_healthy d w Hf) as [b ->].
    destruct b; simpl; apply IH; exact Hf.
Qed.

Lemma process_feed_healthy (source_config : Source) (w : World) :
  faults w = [] ->
  store (snd (process_feed source_config w))
  = insert_all (feed_plan source_config) (store w) /\
  faults (snd (process_feed source_config w)) = [].
Proof.
  intros Hf.
  unfold Pipeline.process_feed, try_except, Pipeline.process_feed_body,
    feed_plan, bindIO, lift, ret.
  destruct (parse (url source_config)) as [feed|e]; [|now split].
  destruct (entries feed) as [|e0 es]; [now split|].
  destruct (process_entries_healthy source_config (firstn 5 (e0 :: es)) w Hf)
    as [H1 H2].
  destruct (for_each (firstn 5 (e0 :: es)) (process_entry source_config) w)
    as [[[]|e] w']; simpl in *; now split.
Qed.

Lemma insert_all_app (ds1 ds2 : list Article) (st : Store) :
  insert_all (ds1 ++ ds2) st = insert_all ds2 (insert_all ds1 st).
Proof.
  unfold insert_all. apply fold_left_app.
Qed.

Lemma run_sources_healthy (feed_list : list Source) (w : World) :
  faults w = [] ->
  store (snd (run_sources feed_list w))
  = insert_all (flat_map feed_plan feed_list) (store w) /\
  faults (snd (run_sources feed_list w)) = [].
Proof.
  rewrite run_sources_each_in_turn. cbn [snd].
  revert w. induction feed_list as [|s rest IH]; intros w Hf; simpl.
  - now split.
  - destruct (process_feed_healthy s w Hf) as [H1 H2].
    destruct (IH _ H2) as [H3 H4]. split; [|exact H4].
    now rewrite H3, H1, insert_all_app.
Qed.

Lemma insert_keeps_links (d : Article) (st : Store) (l : string) :
  has_link l (articles st) = true ->
  has_link l (articles (fst (insert_or_ignore st d))) = true.
Proof.
  intros H. unfold insert_or_ignore.
  destruct (has_link (link d) (articles st)); simpl; [exact H|].
  now rewrite has_link_app, H.
Qed.

Lemma insert_has_link (d : Article) (st : Store) :
  has_link (link d) (articles (fst (insert_or_ignore st d))) = true.
Proof.
  unfold insert_or_ignore.
  destruct (has_link (link d) (articles st)) eqn:E; simpl; [exact E|].
  rewrite has_link_app. simpl. rewrite String.eqb_refl. apply orb_true_r.
Qed.

Lemma insert_all_keeps_links (ds : list Article) (st : Store) (l : string) :
  has_link l (articles st) = true ->
  has_link l (articles (insert_all ds st)) = true.
Proof.
  revert st. induction ds as [|d ds IH]; intros st H; simpl; [exact H|].
  apply IH. now apply insert_keeps_links.
Qed.

Lemma insert_all_has_links (ds : list Article) (st : Store) (d : Article) :
  In d ds -> has_link (link d) (articles (insert_all ds st)) = true.
Proof.
  revert st. induction ds as [|x ds IH]; intros st; [intros []|].
  intros [-> | Hin]; simpl.
  - apply insert_all_keeps_links, insert_has_link.
  - now apply IH.
Qed.

Lemma insert_all_known (ds : list Article) (st : Store) :
  (forall d, In d ds -> has_link (link d) (articles st) = true) ->
  insert_all ds st = st.
Proof.
  induction ds as [|d ds IH]; intros H; simpl; [reflexivity|].
  unfold insert_or_ignore at 1. rewrite (H d (or_introl eq_refl)). simpl.
  apply IH. intros x Hx. apply H. now right.
Qed.

(** With a healthy storage layer, polling the same feeds a second time,
    when they serve what they served the first time, changes no row of the
    table: every article is assembled again and ignored as a duplicate. *)
Theorem run_sources_twice (feed_list : list Source) (w : World) :
  faults w = [] ->
  articles (store (snd (run_sources feed_list (snd (run_sources feed_list w)))))
  = articles (store (snd (run_sources feed_list w))).
Proof.
  intros Hf. f_equal. destruct (run_sources_healthy feed_list w Hf) as [H1 H2].
  destruct (run_sources_healthy feed_list _ H2) as [H3 _].
  rewrite H3. apply insert_all_known. intros d Hd. rewrite H1.
  now apply insert_all_has_links.
Qed.

End Built.

(** *** Scores of the stored articles *)

Section Scores.

Variable get_text : string -> string.
Variable fl : Q -> Q.
Variable parse : string -> PyResult Feed.
Variable engine : Engine.RiskEngine.

Hypothesis fl_monotone : forall a b : Q, (a <= b)%Q -> (fl a <= fl b)%Q.
Hypothesis fl_integer :
  forall z : Z, (Z.abs z <= 2 ^ 53)%Z -> (fl (inject_Z z) == inject_Z z)%Q.

(** The classifier's top score is a probability. *)
Hypothesis top_score_in_unit :
  forall text result,
    Engine.classifier engine text (Engine.risk_labels engine) = Ok result ->
    match Engine.scores result with
    | c :: _ => (0 <= c <= 1)%Q
    | [] => True
    end.

Lemma entry_article_in_band (source_config : Source) (entry : Entry)
  (d : Article) :
  entry_article get_text fl engine source_config entry = Ok d ->
  EngineSpec.in_band (category d) (risk_score d).
Proof.
  unfold entry_article.
  destruct (entry_title entry) as [raw_title|]; [|discriminate].
  destruct (Engine.analyze_risk fl engine _) as [[cat risk]|] eqn:E;
    [|discriminate].
  destruct (entry_link entry) as [l|]; [|discriminate].
  intros [= <-]. cbn [category risk_score].
  destruct (Engine.classifier engine
              (Engine.preprocess get_text (Some raw_title))
              (Engine.risk_labels engine)) as [result|e] eqn:Hcls.
  - pose proof (top_score_in_unit _ _ Hcls) as Hc.
    destruct result as [[|L ls] [|c cs]];
      try (unfold Engine.analyze_risk in E; rewrite Hcls in E;
           discriminate E).
    exact (EngineSpec.analyze_risk_in_band fl fl_monotone fl_integer engine
             _ L ls c cs cat risk Hcls Hc E).
  - unfold Engine.analyze_risk in E. rewrite Hcls in E. discriminate E.
Qed.

(** With a classifier whose top score lies between 0 and 1, a cycle keeps
    the category and the score of every stored article in one band of the
    classification policy, and so every risk score between 0 and 100. *)
Theorem run_sources_scores_in_band (feed_list : list Source) (w : World) :
  Forall (fun r => EngineSpec.in_band (category (data r)) (risk_score (data r)))
    (articles (store w)) ->
  Forall (fun r =>
            EngineSpec.in_band (category (data r)) (risk_score (data r)) /\
            (0 <= risk_score (data r) <= 100)%Z)
    (articles (store (snd (run_sources get_text fl parse engine feed_list w)))).
Proof.
  intros H.
  apply (run_sources_rows get_text fl parse engine
           (fun d => EngineSpec.in_band (category d) (risk_score d))
           entry_article_in_band feed_list w) in H.
  revert H. apply Forall_impl. intros r Hr. split; [exact Hr|].
  unfold EngineSpec.in_band in Hr.
  destruct Hr as [[_ Hr] | [[_ Hr] | [[_ Hr] | [_ Hr]]]]; lia.
Qed.

End Scores.

(** *** Sample runs *)

Definition five_plus_one : Feed :=
  mkFeed
    [mkEntry (Some "One") (Some "A1") None;
     mkEntry (Some "Two") (Some "A2") None;
     mkEntry None (Some "A3") None;
     mkEntry (Some "Four") (Some "A4") None].

Lemma process_feed_failing_entry_witness :
  process_feed EngineSpec.visible_text no_rounding (fun _ => Ok five_plus_one)
    EngineSpec.one_rule_engine (mkSource "Daily" "u") fresh_world
  = (Ok tt,
     print " Error processing Daily: object has no attribute 'title'"
       (snd (for_each
               [mkEntry (Some "One") (Some "A1") None;
                mkEntry (Some "Two") (Some "A2") None]
               (process_entry EngineSpec.visible_text no_rounding
                  EngineSpec.one_rule_engine (mkSource "Daily" "u"))
               fresh_world)))
  /\ links (store (snd (process_feed EngineSpec.visible_text no_rounding
                          (fun _ => Ok five_plus_one)
                          EngineSpec.one_rule_engine (mkSource "Daily" "u")
                          fresh_world)))
     = ["A1"; "A2"].
Proof.
  split; [|reflexivity].
  exact (process_feed_failing_entry EngineSpec.visible_text no_rounding
           (fun _ => Ok five_plus_one) EngineSpec.one_rule_engine
           (mkSource "Daily" "u") five_plus_one
           [mkEntry (Some "One") (Some "A1") None;
            mkEntry (Some "Two") (Some "A2") None]
           (mkEntry None (Some "A3") None)
           [mkEntry (Some "Four") (Some "A4") None]
           "object has no attribute 'title'" fresh_world _
           eq_refl eq_refl eq_refl eq_refl).
Defined.

Lemma run_sources_well_formed_witness :
  Forall (fun r => WellFormed EngineSpec.one_rule_engine (data r))
    (articles (store (snd (run_sources EngineSpec.visible_text no_rounding
                             sample_parse EngineSpec.one_rule_engine
                             three_sources fresh_world)))).
Proof.
  apply (run_sources_well_formed EngineSpec.visible_text no_rounding
           sample_parse EngineSpec.one_rule_engine three_sources fresh_world).
  constructor.
Defined.

Lemma run_sources_ids_ascending_witness :
  Ascending fresh_world /\
  Ascending (snd (run_sources EngineSpec.visible_text no_rounding
                    sample_parse EngineSpec.one_rule_engine three_sources
                    fresh_world)).
Proof.
  split; [exact I|].
  apply (run_sources_ids_ascending EngineSpec.visible_text no_rounding
           sample_parse EngineSpec.one_rule_engine three_sources fresh_world).
  exact I.
Defined.

Lemma run_sources_twice_witness :
  let once :=
    snd (run_sources EngineSpec.visible_text no_rounding sample_parse
           EngineSpec.one_rule_engine three_sources fresh_world) in
  articles
    (store (snd (run_sources EngineSpec.visible_text no_rounding sample_parse
                   EngineSpec.one_rule_engine three_sources once)))
  = articles (store once).
Proof.
  exact (run_sources_twice EngineSpec.visible_text no_rounding sample_parse
           EngineSpec.one_rule_engine three_sources fresh_world eq_refl).
Defined.

Lemma run_sources_scores_in_band_witness :
  Forall (fun r => (0 <= risk_score (data r) <= 100)%Z)
    (articles (store (snd (run_sources EngineSpec.visible_text no_rounding
                             sample_parse EngineSpec.one_rule_engine
                             three_sources fresh_world)))).
Proof.
  assert (Hunit : forall text result,
             Engine.classifier EngineSpec.one_rule_engine text
               (Engine.risk_labels EngineSpec.one_rule_engine) = Ok result ->
             match Engine.scores result with
             | c :: _ => (0 <= c <= 1)%Q
             | [] => True
             end).
  { intros text result [= <-]. split; unfold Qle; simpl; lia. }
  pose proof (run_sources_scores_in_band EngineSpec.visible_text no_rounding
                sample_parse EngineSpec.one_rule_engine
                (fun a b H => H) (fun z _ => Qeq_refl (inject_Z z)) Hunit
                three_sources fresh_world (Forall_nil _)) as H.
  revert H. apply Forall_impl. intros r Hr. apply Hr.
Defined.

End PipelineExtra.

(** ** One turn of the loop of [run] *)

Module RunExtra.
Import Py Database Pipeline Config DatabaseSpec PipelineSpec PipelineExtra.

(** The engine as [reload_config] leaves it. *)
Definition reloaded (rules : list (string * list string))
  (locations_json : FileRead (list (string * Engine.Coords)))
  (engine : Engine.RiskEngine) : Engine.RiskEngine :=
  Engine.mkRiskEngine (Engine.classifier engine) rules
    (match locations_json with Loaded l => l | _ => [] end)
    (Engine.risk_labels engine).

(** When the sources file is missing the cycle still completes: it
    reports the missing file, processes no source, leaves the store as it
    was, and sleeps for the configured interval. *)
Theorem run_cycle_missing_sources_file
  (get_text : string -> string) (fl : Q -> Q) (parse : string -> PyResult Feed)
  (locations_json : FileRead (list (string * Engine.Coords)))
  (sources_json : string -> FileRead (list Source))
  (config : Settings) (settings : AppSettings) (file : string) (interval : Z)
  (engine : Engine.RiskEngine) (w : World) :
  app_settings config = Some settings ->
  sources_file settings = Some file ->
  refresh_interval_seconds settings = Some interval ->
  sources_json (join_config file) = FileNotFound ->
  run_cycle get_text fl parse (Loaded config) locations_json sources_json
    engine w
  = (Ok (reloaded (match sector_logic config with Some r => r | None => [] end)
           locations_json engine, interval),
     print ("--- Analyzing... (Refresh in " ++ str_of_int interval ++ "s) ---")
       (print ("Error: " ++ join_config file ++ " not found.") w)).
Proof.
  intros Hs Hf Hi Hsrc.
  unfold run_cycle, reload_config, load_config, bindIO, item, ret, raise.
  now rewrite Hs, Hf, Hsrc, Hi.
Qed.

(** What ends the loop.  A config.json that cannot be read or parsed, a
    configuration without app_settings or without sources_file, and a
    sources file that cannot be read or parsed each make the cycle raise
    before any source is processed, the world untouched; a configuration
    without refresh_interval_seconds makes it raise after all sources were
    processed. *)
Theorem run_cycle_fatal
  (get_text : string -> string) (fl : Q -> Q) (parse : string -> PyResult Feed)
  (locations_json : FileRead (list (string * Engine.Coords)))
  (sources_json : string -> FileRead (list Source))
  (engine : Engine.RiskEngine) (w : World) :
  (forall msg,
      run_cycle get_text fl parse (Unreadable msg) locations_json sources_json
        engine w
      = (Raised msg, w))
  /\
  (forall config,
      app_settings config = None ->
      run_cycle get_text fl parse (Loaded config) locations_json sources_json
        engine w
      = (Raised "'app_settings'", w))
  /\
  (forall config settings,
      app_settings config = Some settings ->
      sources_file settings = None ->
      run_cycle get_text fl parse (Loaded config) locations_json sources_json
        engine w
      = (Raised "'sources_file'", w))
  /\
  (forall config settings file msg,
      app_settings config = Some settings ->
      sources_file settings = Some file ->
      sources_json (join_config file) = Unreadable msg ->
      run_cycle get_text fl parse (Loaded config) locations_json sources_json
        engine w
      = (Raised msg, w))
  /\
  (forall config settings file feed_list,
      app_settings config = Some settings ->
      sources_file settings = Some file ->
      sources_json (join_config file) = Loaded feed_list ->
      refresh_interval_seconds settings = None ->
      run_cycle get_text fl parse (Loaded config) locations_json sources_json
        engine w
      = (Raised "'refresh_interval_seconds'",
         snd (run_sources get_text fl parse
                (reloaded
                   (match sector_logic config with Some r => r | None => [] end)
                   locations_json engine)
                feed_list w))).
Proof.
  unfold run_cycle, reload_config, load_config, bindIO, item, ret, raise.
  split; [reflexivity|]. split; [|split; [|split]].
  - intros config Hs. now rewrite Hs.
  - intros config settings Hs Hf. now rewrite Hs, Hf.
  - intros config settings file msg Hs Hf Hsrc. now rewrite Hs, Hf, Hsrc.
  - intros config settings file feed_list Hs Hf Hsrc Hi.
    rewrite Hs, Hf, Hsrc, Hi.
    destruct (run_sources_total get_text fl parse
                (reloaded
                   (match sector_logic config with Some r => r | None => [] end)
                   locations_json engine) feed_list w) as [w' E].
    unfold reloaded in *. now rewrite E.
Qed.

(** Without config.json the cycle runs on the defaults: the warning is
    printed by both loads, the engine has no sector rule, the sources are
    looked for under config/config/locations.json, and the sleep is 300
    seconds. *)
Theorem run_cycle_default_settings
  (get_text : string -> string) (fl : Q -> Q) (parse : string -> PyResult Feed)
  (locations_json : FileRead (list (string * Engine.Coords)))
  (sources_json : string -> FileRead (list Source))
  (feed_list : list Source) (engine : Engine.RiskEngine) (w : World) :
  sources_json "config/config/locations.json" = Loaded feed_list ->
  run_cycle get_text fl parse FileNotFound locations_json sources_json engine w
  = (Ok (reloaded [] locations_json engine, 300%Z),
     print "--- Analyzing... (Refresh in 300s) ---"
       (snd (run_sources get_text fl parse (reloaded [] locations_json engine)
               feed_list
               (print "Warning: config.json not found"
                  (print "Warning: config.json not found" w))))).
Proof.
  intros Hsrc.
  unfold run_cycle, reload_config, load_config, bindIO, item, ret, raise.
  cbn [default_settings app_settings sources_file sector_logic
       refresh_interval_seconds].
  change (join_config "config/locations.json")
    with "config/config/locations.json".
  rewrite Hsrc.
  destruct (run_sources_total get_text fl parse
              (reloaded [] locations_json engine) feed_list
              (print "Warning: config.json not found"
                 (print "Warning: config.json not found" w))) as [w' E].
  unfold reloaded in *. now rewrite E.
Qed.

Lemma bindIO_preserves {A B} (I : World -> Prop) (m : IO A) (k : A -> IO B)
  (w : World) :
  I (snd (m w)) ->
  (forall a w', I w' -> I (snd (k a w'))) ->
  I (snd (bindIO m k w)).
Proof.
  intros Hm Hk. unfold bindIO.
  destruct (m w) as [[a|e] w']; simpl in *; auto.
Qed.

Lemma item_preserves {A} (I : World -> Prop) (key : string) (v : option A)
  (w : World) :
  I w -> I (snd (item key v w)).
Proof.
  intros H. now destruct v.
Qed.

Lemma load_config_preserves (I : World -> Prop)
  (config_json : FileRead Settings) (w : World) :
  (forall line w0, I w0 -> I (print line w0)) ->
  I w -> I (snd (load_config config_json w)).
Proof.
  intros Hprint H. destruct config_json; simpl; auto.
Qed.

(** A property of the world kept by printing and by every cycle over the
    sources, whatever the engine, is kept by a turn of the loop. *)
Lemma run_cycle_preserves (I : World -> Prop)
  (get_text : string -> string) (fl : Q -> Q) (parse : string -> PyResult Feed)
  (config_json : FileRead Settings)
  (locations_json : FileRead (list (string * Engine.Coords)))
  (sources_json : string -> FileRead (list Source)) :
  (forall line w, I w -> I (print line w)) ->
  (forall engine feed_list w,
      I w -> I (snd (run_sources get_text fl parse engine feed_list w))) ->
  forall engine w,
    I w ->
    I (snd (run_cycle get_text fl parse config_json locations_json
              sources_json engine w)).
Proof.
  intros Hprint Hrun engine w Hw. unfold run_cycle.
  apply bindIO_preserves; [now apply load_config_preserves|].
  intros config w1 H1.
  apply bindIO_preserves.
  { unfold reload_config. apply bindIO_preserves;
      [now apply load_config_preserves | intros c w2 H2; exact H2]. }
  intros engine1 w2 H2.
  apply bindIO_preserves; [now apply item_preserves|].
  intros settings w3 H3.
  apply bindIO_preserves; [now apply item_preserves|].
  intros file w4 H4.
  apply bindIO_preserves.
  { destruct (sources_json (join_config file)); simpl; auto. }
  intros feed_list w5 H5.
  apply bindIO_preserves; [now apply Hrun|].
  intros u w6 H6.
  apply bindIO_preserves; [now apply item_preserves|].
  intros interval w7 H7. simpl. now apply Hprint.
Qed.

Lemma run_cycles_preserves (I : World -> Prop)
  (get_text : string -> string) (fl : Q -> Q) (parse : string -> PyResult Feed)
  (config_json : FileRead Settings)
  (locations_json : FileRead (list (string * Engine.Coords)))
  (sources_json : string -> FileRead (list Source)) :
  (forall line w, I w -> I (print line w)) ->
  (forall engine feed_list w,
      I w -> I (snd (run_sources get_text fl parse engine feed_list w))) ->
  forall cycles engine w,
    I w ->
    I (snd (run_cycles get_text fl parse config_json locations_json
              sources_json cycles engine w)).
Proof.
  intros Hprint Hrun cycles.
  induction cycles as [|k IH]; intros engine w Hw; simpl; [exact Hw|].
  apply bindIO_preserves; [now apply run_cycle_preserves|].
  intros turn w1 H1. now apply IH.
Qed.

(** Any number of turns of the loop, ended by an exception or not, only
    appends to the table and keeps the ids growing in insertion order: a
    row once stored is never changed, moved or removed. *)
Theorem run_cycles_append_only
  (get_text : string -> string) (fl : Q -> Q) (parse : string -> PyResult Feed)
  (config_json : FileRead Settings)
  (locations_json : FileRead (list (string * Engine.Coords)))
  (sources_json : string -> FileRead (list Source))
  (cycles : nat) (engine : Engine.RiskEngine) (w : World) :
  Ascending w ->
  let w' := snd (run_cycles get_text fl parse config_json locations_json
                   sources_json cycles engine w) in
  Ascending w' /\
  exists added, articles (store w') = articles (store w) ++ added.
Proof.
  intros Hw. cbv zeta.
  apply (run_cycles_preserves
           (fun w0 =>
              Ascending w0 /\
              exists added,
                articles (store w0) = articles (store w) ++ added)).
  - intros line w0 H. exact H.
  - intros engine0 feed_list w0 [H1 [added H2]]. split.
    + revert H1. apply (run_sources_preserves get_text fl parse engine0).
      * intros line w1 H. exact H.
      * intros source_config entry d w1 _. apply save_article_ascending.
    + destruct (for_each_grows 5 (process_feed get_text fl parse engine0)
                  (process_feed_grows get_text fl parse engine0)
                  feed_list w0) as [more [H3 _]].
      exists (added ++ more).
      unfold run_sources. now rewrite H3, H2, app_assoc.
  - split; [exact Hw|]. exists []. now rewrite app_nil_r.
Qed.

Definition sample_settings : Settings :=
  mkSettings (Some [("INFRASTRUCTURE", ["riot"])])
    (Some (mkAppSettings (Some 60%Z) (Some "sources.json"))).

Definition sample_sources (path : string) : FileRead (list Source) :=
  if String.eqb path "config/sources.json" then Loaded three_sources
  else FileNotFound.

Lemma run_cycle_missing_sources_file_witness :
  exists engine,
    run_cycle EngineSpec.visible_text no_rounding sample_parse
      (Loaded sample_settings) FileNotFound (fun _ => FileNotFound)
      EngineSpec.one_rule_engine fresh_world
    = (Ok (engine, 60%Z),
       mkWorld empty_store
         ["Error: config/sources.json not found.";
          "--- Analyzing... (Refresh in 60s) ---"] []).
Proof.
  eexists.
  exact (run_cycle_missing_sources_file EngineSpec.visible_text no_rounding
           sample_parse FileNotFound (fun _ => FileNotFound) sample_settings
           (mkAppSettings (Some 60%Z) (Some "sources.json")) "sources.json"
           60 EngineSpec.one_rule_engine fresh_world
           eq_refl eq_refl eq_refl eq_refl).
Defined.

Lemma run_cycle_default_settings_witness :
  links (store (snd (run_cycle EngineSpec.visible_text no_rounding sample_parse
                       FileNotFound FileNotFound
                       (fun _ => Loaded three_sources)
                       EngineSpec.one_rule_engine fresh_world)))
  = ["L1"; "L3"].
Proof.
  rewrite (run_cycle_default_settings EngineSpec.visible_text no_rounding
             sample_parse FileNotFound (fun _ => Loaded three_sources)
             three_sources EngineSpec.one_rule_engine fresh_world eq_refl).
  reflexivity.
Defined.

Lemma run_cycles_append_only_witness :
  Ascending fresh_world /\
  Ascending
    (snd (run_cycles EngineSpec.visible_text no_rounding sample_parse
            (Loaded sample_settings) FileNotFound sample_sources 3
            EngineSpec.one_rule_engine fresh_world)).
Proof.
  split; [exact I|].
  apply (run_cycles_append_only EngineSpec.visible_text no_rounding
           sample_parse (Loaded sample_settings) FileNotFound sample_sources 3
           EngineSpec.one_rule_engine fresh_world).
  exact I.
Defined.

End RunExtra.

(** ** Reading the store back, and the list views *)

Module ViewsExtra.
Import Py Analytics.

Local Open Scope Z_scope.

Lemma insert_desc_last (r : Database.Row) (sorted : list Database.Row) :
  Forall (fun x => Database.id r < Database.id x) sorted ->
  insert_desc r sorted = sorted ++ [r].
Proof.
  induction 1 as [|x sorted Hx Hrest IH]; simpl; [reflexivity|].
  destruct (Z.ltb_spec (Database.id x) (Database.id r)); [lia|].
  now rewrite IH.
Qed.

(** On a table whose ids grow in insertion order, ORDER BY id DESC is the
    reverse of the insertion order. *)
Lemma order_ascending (top : Z) (rows : list Database.Row) :
  PipelineExtra.AscendingTo top rows -> order_by_id_desc rows = rev rows.
Proof.
  induction rows as [|r rows IH]; simpl; [reflexivity|].
  intros [_ [Hlt Hrows]]. unfold order_by_id_desc in *. simpl.
  rewrite (IH Hrows). apply insert_desc_last.
  apply Forall_forall. intros x Hx. apply in_rev in Hx.
  exact (proj1 (Forall_forall _ _) Hlt x Hx).
Qed.

Section Loaded.

Variable to_datetime : string -> option Z.

(** On a store whose ids grow in insertion order, as the pipeline keeps
    it, [fetch_latest] returns the most recently inserted rows, newest
    first, at most [limit] of them (all of them for a negative limit); and
    right after a new article was saved it comes first, followed by what
    was fetched before. *)
Theorem fetch_latest_newest_first (w : Database.World) (limit : Z) :
  PipelineExtra.Ascending w ->
  let rows := Database.articles (Database.store w) in
  (0 <= limit ->
   fetch_latest to_datetime (Database.store w) limit
   = map (to_row to_datetime) (firstn (Z.to_nat limit) (rev rows)) /\
   len (fetch_latest to_datetime (Database.store w) limit) <= limit)
  /\
  (limit < 0 ->
   fetch_latest to_datetime (Database.store w) limit
   = map (to_row to_datetime) (rev rows))
  /\
  (forall d,
      Database.faults w = [] ->
      Database.has_link (Database.link d) rows = false ->
      1 <= limit ->
      fetch_latest to_datetime
        (Database.store (snd (Database.save_article d w))) limit
      = to_row to_datetime
          (Database.mkRow (Database.sqlite_sequence (Database.store w) + 1) d)
          :: fetch_latest to_datetime (Database.store w) (limit - 1)).
Proof.
  intros Hn rows. subst rows.
  assert (Hfetch : forall st n,
             PipelineExtra.AscendingTo (Database.sqlite_sequence st)
               (Database.articles st) ->
             0 <= n ->
             fetch_latest to_datetime st n
             = map (to_row to_datetime)
                 (firstn (Z.to_nat n) (rev (Database.articles st)))).
  { intros st n H Hpos. unfold fetch_latest, sql_limit.
    rewrite (order_ascending _ _ H).
    destruct (Z.ltb_spec n 0); [lia | reflexivity]. }
  split; [|split].
  - intros Hpos. rewrite (Hfetch _ _ Hn Hpos). split; [reflexivity|].
    unfold len. rewrite length_map.
    pose proof (firstn_le_length (Z.to_nat limit)
                  (rev (Database.articles (Database.store w)))) as H1.
    pose proof (length_firstn (Z.to_nat limit)
                  (rev (Database.articles (Database.store w)))) as H2.
    lia.
  - intros Hneg. unfold fetch_latest, sql_limit.
    rewrite (order_ascending _ _ Hn).
    destruct (Z.ltb_spec limit 0); [reflexivity | lia].
  - intros d Hf Hnew Hpos.
    destruct (PipelineExtra.save_article_healthy d w Hf) as [b E].
    pose proof (PipelineExtra.save_article_ascending d w Hn) as Hn'.
    rewrite (Hfetch _ _ Hn') by lia. rewrite (Hfetch _ _ Hn) by lia.
    rewrite E. cbn [snd Database.set_store Database.store].
    unfold Database.insert_or_ignore. rewrite Hnew.
    cbn [fst Database.articles]. rewrite rev_app_distr. cbn [rev app].
    replace (Z.to_nat limit) with (S (Z.to_nat (limit - 1))) by lia.
    cbn [firstn map]. reflexivity.
Qed.

End Loaded.

Definition two_rows : Database.World :=
  Database.mkWorld
    (Database.mkStore
       [Database.mkRow 1 DatabaseSpec.sample_article;
        Database.mkRow 4
          (Database.mkArticle "Fuel prices expected to rise" "L2" "Unknown"
             "Daily" "Warning" 61 "FINANCE" None None 1)] 6) [] [].

Lemma fetch_latest_newest_first_witness :
  map id (fetch_latest (fun _ => None) (Database.store two_rows) 5) = [4; 1].
Proof.
  destruct (fetch_latest_newest_first (fun _ => None) two_rows 5) as [H _].
  - unfold PipelineExtra.Ascending. simpl.
    repeat split; try lia; repeat constructor; simpl; lia.
  - destruct H as [-> _]; [lia | reflexivity].
Defined.

(** *** The sector filter *)

Lemma filter_twice {A} (f : A -> bool) (l : list A) :
  filter f (filter f l) = filter f l.
Proof.
  induction l as [|x l IH]; simpl; [reflexivity|].
  destruct (f x) eqn:E; simpl; [rewrite E, IH|]; auto.
Qed.

(** [_get_data] keeps the frame as it is for no filter, the empty filter
    and All; for any other sector it keeps exactly the rows of that
    sector; and filtering twice is filtering once. *)
Theorem get_data_filter (df : DataFrame) (sector_filter : option string) :
  (sector_filter = None \/ sector_filter = Some "" \/
   sector_filter = Some "All" ->
   _get_data df sector_filter = df)
  /\
  (forall s, sector_filter = Some s -> s <> "" -> s <> "All" ->
     forall r, In r (_get_data df sector_filter) <-> In r df /\ sector r = s)
  /\
  _get_data (_get_data df sector_filter) sector_filter
  = _get_data df sector_filter.
Proof.
  split; [|split].
  - intros [-> | [-> | ->]]; reflexivity.
  - intros s -> Hs Hall r. unfold _get_data.
    destruct s as [|c s]; [congruence|].
    destruct (String.eqb_spec (String c s) "All") as [E | _]; [congruence|].
    rewrite filter_In, String.eqb_eq. tauto.
  - destruct sector_filter as [[|c s]|]; try reflexivity.
    unfold _get_data.
    destruct (String.eqb (String c s) "All"); [reflexivity|].
    apply filter_twice.
Qed.

(** *** Top insights *)

Lemma firstn_filter {A} (n : nat) (p : A -> bool) (l : list A) :
  (List.length (firstn n (filter p l)) <= n)%nat /\
  (forall x, In x (firstn n (filter p l)) -> In x l /\ p x = true) /\
  ((List.length (firstn n (filter p l)) < n)%nat ->
   forall x, In x l -> p x = true -> In x (firstn n (filter p l))).
Proof.
  split; [|split].
  - pose proof (firstn_le_length n (filter p l)) as H1.
    pose proof (length_firstn n (filter p l)) as H2. lia.
  - intros x Hx. apply filter_In.
    rewrite <- (firstn_skipn n (filter p l)). apply in_or_app. now left.
  - intros Hshort x Hx Hp.
    rewrite firstn_all2; [now apply filter_In|].
    rewrite length_firstn in Hshort. lia.
Qed.


(** [get_upcoming_events] returns at most 5 matching rows, all flagged as
    upcoming, and every flagged row when it returns fewer than 5;
    [get_map_data] returns exactly the matching rows that have both a
    latitude and a longitude. *)
Theorem upcoming_events_and_map_data (df : DataFrame)
  (sector_filter : option string) :
  let matching := _get_data df sector_filter in
  let events := get_upcoming_events df sector_filter in
  (len events <= 5 /\
   (forall r, In r events -> In r matching /\ is_upcoming r = 1) /\
   (len events < 5 ->
    forall r, In r matching -> is_upcoming r = 1 -> In r events))
  /\
  (forall r, In r (get_map_data df sector_filter) <->
     In r matching /\ exists la lo, lat r = Some la /\ lon r = Some lo).
Proof.
  intros matching events. split.
  - assert (He : events
                 = firstn 5 (filter (fun r => is_upcoming r =? 1) matching)).
    { unfold events, get_upcoming_events. fold matching.
      now destruct matching. }
    destruct (firstn_filter 5 (fun r => is_upcoming r =? 1) matching)
      as [E1 [E2 E3]].
    rewrite <- He in E1, E2, E3. unfold len. split; [lia|]. split.
    + intros r Hin. destruct (E2 r Hin) as [H1 H2].
      split; [exact H1 | now apply Z.eqb_eq].
    + intros Hshort r Hin Hflag. apply E3; [lia | exact Hin|].
      now apply Z.eqb_eq.
  - intros r. unfold get_map_data. fold matching.
    assert (H : In r (filter (fun r0 => notna (lat r0) && notna (lon r0))
                        matching)
                <-> In r matching /\
                    exists la lo, lat r = Some la /\ lon r = Some lo).
    { rewrite filter_In, andb_true_iff.
      destruct (lat r) as [la|], (lon r) as [lo|]; simpl; split;
        try (intros [H1 [H2 H3]]; discriminate);
        try (intros [H1 [la' [lo' [H2 H3]]]]; discriminate).
      - intros [H1 _]. split; [exact H1 | now exists la, lo].
      - intros [H1 _]. auto. }
    destruct matching; [|exact H]. simpl. split; [intros [] | intros [[] _]].
Qed.

End ViewsExtra.

(** ** Sector status and the ranges of the indicators *)

Module AnalyticsExtra.
Import Py Analytics AnalyticsSpec.

Local Open Scope Z_scope.

(** Every score the frame holds lies between 0 and 100. *)
Definition ScoresInRange (df : DataFrame) : Prop :=
  Forall (fun r => match risk_score r with
                   | Some v => 0 <= v <= 100
                   | None => True
                   end) df.

Lemma dropna_in_range (rows : list DfRow) :
  ScoresInRange rows ->
  Forall (fun v => 0 <= v <= 100) (dropna (map risk_score rows)).
Proof.
  induction 1 as [|r rows Hr Hrows IH]; simpl; [constructor|].
  destruct (risk_score r); [constructor|]; assumption.
Qed.

Lemma ScoresInRange_firstn (n : nat) (rows : list DfRow) :
  ScoresInRange rows -> ScoresInRange (firstn n rows).
Proof.
  intros H. apply Forall_forall. intros r Hr.
  apply (proj1 (Forall_forall _ _) H).
  rewrite <- (firstn_skipn n rows). apply in_or_app. now left.
Qed.

Lemma ScoresInRange_filter (p : DfRow -> bool) (rows : list DfRow) :
  ScoresInRange rows -> ScoresInRange (filter p rows).
Proof.
  intros H. apply Forall_forall. intros r Hr. apply filter_In in Hr.
  now apply (proj1 (Forall_forall _ _) H).
Qed.

Lemma ScoresInRange_get_data (df : DataFrame) (sector_filter : option string) :
  ScoresInRange df -> ScoresInRange (_get_data df sector_filter).
Proof.
  intros H. unfold _get_data.
  destruct sector_filter as [[|c s]|]; try exact H.
  destruct (String.eqb (String c s) "All"); [exact H|].
  now apply ScoresInRange_filter.
Qed.

Lemma filter_length_le {A} (p : A -> bool) (l : list A) :
  (List.length (filter p l) <= List.length l)%nat.
Proof.
  induction l as [|x l IH]; simpl; [lia|]. destruct (p x); simpl; lia.
Qed.

Section Ranges.

Variable fl : Q -> Q.
Hypothesis fl_monotone : forall a b : Q, (a <= b)%Q -> (fl a <= fl b)%Q.
Hypothesis fl_grid :
  forall z : Z, Z.abs z <= 2 ^ 20 -> (fl (z # 64) == z # 64)%Q.

(** [int(mean)] of some scores between 0 and 100 lies between 0 and 100. *)
Lemma int_mean_in_range (cells : list (option Z)) (avg : Q) :
  Forall (fun v => 0 <= v <= 100) (dropna cells) ->
  mean fl cells = Some avg ->
  0 <= int_of_float avg <= 100.
Proof.
  intros Hrange. unfold mean.
  destruct (dropna cells) as [|v vs] eqn:E; [discriminate|].
  intros [= <-].
  pose proof (sum_bounds (v :: vs) Hrange) as Hsum.
  set (total := sum (v :: vs)) in *. set (count := len (v :: vs)) in *.
  assert (Hcount : 1 <= count)
    by (unfold count, len; cbn [List.length]; lia).
  assert (Hpos : (0 < inject_Z count)%Q).
  { change 0%Q with (inject_Z 0). rewrite <- Zlt_Qlt. lia. }
  assert (P20 : 2 ^ 20 = 1048576) by reflexivity.
  destruct (fl_grid_between fl fl_monotone fl_grid 0 6400
              (inject_Z total / inject_Z count)%Q) as [Hlo Hhi]; try lia.
  - apply Qle_shift_div_l; [exact Hpos|].
    unfold Qle; cbn [Qnum Qden inject_Z Qmult]; lia.
  - apply Qle_shift_div_r; [exact Hpos|].
    unfold Qle; cbn [Qnum Qden inject_Z Qmult]; nia.
  - unfold fdiv.
    rewrite EngineSpec.int_of_float_nonneg
      by (eapply Qle_trans; [|exact Hlo]; unfold Qle; simpl; lia).
    apply Qfloor_resp_le in Hlo, Hhi.
    change (Qfloor (0 # 64)) with 0 in Hlo.
    change (Qfloor (6400 # 64)) with 100 in Hhi.
    subst total count. split; [exact Hlo | exact Hhi].
Qed.

(** For scores between 0 and 100, the stability is between 0 and 100; the
    critical count and the 24-hour volume are between 0 and the number of
    matching articles. *)
Theorem national_indicators_ranges (now : Z) (df : DataFrame)
  (sector_filter : option string) :
  ScoresInRange df ->
  let result := get_national_indicators fl now df sector_filter in
  let matching := len (_get_data df sector_filter) in
  0 <= stability result <= 100 /\
  0 <= critical_count result <= matching /\
  0 <= snd result <= matching.
Proof.
  intros Hrange result matching.
  pose proof (ScoresInRange_get_data df sector_filter Hrange) as Hm.
  destruct (_get_data df sector_filter) as [|r rows] eqn:E.
  - unfold result, get_national_indicators. rewrite E.
    unfold stability, critical_count, matching, len. simpl. lia.
  - assert (Hne : _get_data df sector_filter <> []) by (rewrite E; discriminate).
    assert (Hstab : 0 <= stability result <= 100).
    { destruct (indicators_of_matching fl now df sector_filter Hne)
        as [volume Hres].
      unfold result. rewrite Hres. unfold stability. cbn [fst].
      pose proof (window_length df sector_filter) as Hlen.
      assert (Hw : Forall (fun v => 0 <= v <= 100) (window df sector_filter)).
      { unfold window. apply dropna_in_range, ScoresInRange_firstn.
        now rewrite E. }
      pose proof (sum_bounds _ Hw) as Hsum.
      destruct (window df sector_filter) as [|v vs] eqn:Ew; [lia|].
      rewrite (stability_ceiling fl fl_monotone fl_grid);
        [|unfold len in *; cbn [List.length] in *; lia | exact Hsum].
      assert (Hpos : (0 < inject_Z (len (v :: vs)))%Q).
      { change 0%Q with (inject_Z 0). rewrite <- Zlt_Qlt.
        unfold len. cbn [List.length]. lia. }
      assert (H0 : (inject_Z 0 <= inject_Z (sum (v :: vs))
                                  / inject_Z (len (v :: vs)))%Q).
      { apply Qle_shift_div_l; [exact Hpos|].
        unfold Qle; cbn [Qnum Qden inject_Z Qmult]; lia. }
      assert (H100 : (inject_Z (sum (v :: vs)) / inject_Z (len (v :: vs))
                      <= inject_Z 100)%Q).
      { apply Qle_shift_div_r; [exact Hpos|].
        unfold Qle; cbn [Qnum Qden inject_Z Qmult]; nia. }
      apply Qceiling_resp_le in H0, H100.
      rewrite Qceiling_Z in H0, H100. lia. }
    split; [exact Hstab|].
    unfold result, get_national_indicators, critical_count, matching.
    rewrite E. cbn [empty fst snd]. unfold len.
    pose proof (filter_length_le (score_gt 80) (r :: rows)) as H1.
    split; [lia|].
    destruct (existsb (fun r0 => notna (published_dt r0)) (r :: rows)).
    + match goal with
      | |- context [filter ?p (r :: rows)] =>
          pose proof (filter_length_le p (r :: rows)) as H2
      end. lia.
    + lia.
Qed.

(** *** Sector status *)

(** The value [get_sector_status] computes for one sector. *)
Definition sector_value (df : DataFrame) (sec : string) : option Z :=
  let sec_data := filter (fun r => String.eqb (sector r) sec) df in
  if empty sec_data then Some 0
  else option_map int_of_float (mean fl (map risk_score (firstn 10 sec_data))).

Lemma sector_status_loop_ok (df : DataFrame) (sectors : list string)
  (status : list (string * Z)) :
  (forall sec, In sec sectors -> sector_value df sec <> None) ->
  sector_status_loop fl df sectors status
  = Ok (status
          ++ map (fun sec =>
                    (sec, match sector_value df sec with
                          | Some v => v
                          | None => 0
                          end)) sectors).
Proof.
  revert status. induction sectors as [|sec rest IH]; intros status H; simpl.
  - now rewrite app_nil_r.
  - pose proof (H sec (or_introl eq_refl)) as Hsec.
    unfold sector_value in Hsec |- *. cbv zeta in Hsec |- *.
    destruct (empty (filter (fun r => String.eqb (sector r) sec) df)).
    + rewrite IH; [|intros s Hs; apply H; now right].
      now rewrite <- app_assoc.
    + destruct (mean fl _) as [avg|]; [|now contradiction Hsec].
      rewrite IH; [|intros s Hs; apply H; now right].
      now rewrite <- app_assoc.
Qed.

Lemma sector_status_loop_raises (df : DataFrame) (sectors : list string)
  (status : list (string * Z)) (sec : string) :
  In sec sectors -> sector_value df sec = None ->
  sector_status_loop fl df sectors status
  = Raised "cannot convert float NaN to integer".
Proof.
  revert status. induction sectors as [|s rest IH]; intros status; [intros []|].
  intros Hin Hbad. cbn [sector_status_loop]. cbv zeta.
  destruct (empty (filter (fun r => String.eqb (sector r) s) df)) eqn:Ee.
  - destruct Hin as [-> | Hin]; [|now apply IH].
    unfold sector_value in Hbad. cbv zeta in Hbad. now rewrite Ee in Hbad.
  - destruct (mean fl (map risk_score
                         (firstn 10
                            (filter (fun r => String.eqb (sector r) s) df))))
      as [avg|] eqn:Em; [|reflexivity].
    destruct Hin as [-> | Hin]; [|now apply IH].
    unfold sector_value in Hbad. cbv zeta in Hbad.
    now rewrite Ee, Em in Hbad.
Qed.

(** On a frame that is not empty and in which every row has a score
    between 0 and 100, [get_sector_status] returns one value per tracked
    sector, in their fixed order, each between 0 and 100, and 0 for a
    sector without articles. *)
Theorem get_sector_status_range (df : DataFrame) :
  df <> [] ->
  Forall (fun r => exists v, risk_score r = Some v /\ 0 <= v <= 100) df ->
  exists status,
    get_sector_status fl df = Ok status /\
    map fst status = tracked_sectors /\
    (forall sec v, In (sec, v) status -> 0 <= v <= 100) /\
    (forall sec v, In (sec, v) status ->
       (forall r, In r df -> sector r <> sec) -> v = 0).
Proof.
  intros Hne Hall.
  assert (Hrange : ScoresInRange df).
  { revert Hall. apply Forall_impl. intros r [v [-> H]]. exact H. }
  assert (Hval : forall sec,
             exists v, sector_value df sec = Some v /\ 0 <= v <= 100 /\
                       ((forall r, In r df -> sector r <> sec) -> v = 0)).
  { intros sec. unfold sector_value. cbv zeta.
    destruct (filter (fun r => String.eqb (sector r) sec) df)
      as [|r rows] eqn:Ef.
    - exists 0. cbn [empty]. repeat split; lia.
    - cbn [empty].
      assert (Hr : In r df /\ String.eqb (sector r) sec = true).
      { apply (proj1 (filter_In (fun x => String.eqb (sector x) sec) r df)).
        rewrite Ef. now left. }
      assert (Hin : ScoresInRange (firstn 10 (r :: rows))).
      { apply ScoresInRange_firstn. rewrite <- Ef.
        now apply ScoresInRange_filter. }
      apply dropna_in_range in Hin.
      destruct (proj1 (Forall_forall _ _) Hall r (proj1 Hr)) as [v [Hv _]].
      destruct (mean fl (map risk_score (firstn 10 (r :: rows))))
        as [avg|] eqn:Em.
      + exists (int_of_float avg). cbn [option_map].
        split; [reflexivity|]. split.
        * exact (int_mean_in_range _ avg Hin Em).
        * intros Hnone. exfalso. apply (Hnone r (proj1 Hr)).
          now apply String.eqb_eq.
      + exfalso. unfold mean in Em. cbn [firstn map] in Em.
        rewrite Hv in Em. cbn [dropna] in Em. discriminate Em. }
  exists (map (fun sec => (sec, match sector_value df sec with
                                | Some v => v
                                | None => 0
                                end)) tracked_sectors).
  split; [|split; [|split]].
  - unfold get_sector_status. destruct df as [|r rows]; [congruence|].
    cbn [empty]. rewrite sector_status_loop_ok; [reflexivity|].
    intros sec _. destruct (Hval sec) as [v [-> _]]. discriminate.
  - rewrite map_map. cbn [fst]. apply map_id.
  - intros sec v Hin. apply in_map_iff in Hin.
    destruct Hin as [s [[= <- <-] _]].
    destruct (Hval s) as [v [-> [H _]]]. exact H.
  - intros sec v Hin Hnone. apply in_map_iff in Hin.
    destruct Hin as [s [[= <- <-] _]].
    destruct (Hval s) as [v [-> [_ H]]]. now apply H.
Qed.

(** [get_sector_status] raises, instead of returning, as soon as one
    tracked sector has articles but no score among its 10 most recent:
    the mean is NaN and [int] refuses it. *)
Theorem get_sector_status_nan (df : DataFrame) (sec : string) (r : DfRow) :
  In sec tracked_sectors ->
  In r df -> sector r = sec ->
  (forall x,
      In x (firstn 10 (filter (fun x => String.eqb (sector x) sec) df)) ->
      risk_score x = None) ->
  get_sector_status fl df = Raised "cannot convert float NaN to integer".
Proof.
  intros Hsec Hin Hr Hnan. unfold get_sector_status.
  destruct df as [|r0 rows] eqn:Edf; [destruct Hin|]. cbn [empty].
  rewrite <- Edf in *.
  apply (sector_status_loop_raises df tracked_sectors [] sec Hsec).
  unfold sector_value. cbv zeta.
  destruct (filter (fun x => String.eqb (sector x) sec) df) as [|x xs] eqn:Ef.
  - exfalso.
    assert (H : In r (filter (fun x => String.eqb (sector x) sec) df)).
    { apply filter_In. split; [exact Hin | now apply String.eqb_eq]. }
    rewrite Ef in H. destruct H.
  - cbn [empty]. unfold mean.
    assert (Hd : dropna (map risk_score (firstn 10 (x :: xs))) = []).
    { revert Hnan. generalize (firstn 10 (x :: xs)).
      induction l as [|a l IH]; intros H; [reflexivity|]. simpl.
      rewrite (H a (or_introl eq_refl)). apply IH.
      intros y Hy. apply H. now right. }
    now rewrite Hd.
Qed.

End Ranges.

Definition finance_df : DataFrame :=
  [timed_row 40 0; timed_row 85 (hours 1); timed_row 55 (hours 2)].

Definition unscored (sec : string) : DfRow :=
  mkDfRow 0 "" "" "Info" None sec None None 0 None.

Lemma rounding_free :
  (forall a b : Q, (a <= b)%Q -> (no_rounding a <= no_rounding b)%Q) /\
  (forall z : Z, Z.abs z <= 2 ^ 20 -> (no_rounding (z # 64) == z # 64)%Q).
Proof.
  split; [intros a b H; exact H | intros z _; reflexivity].
Qed.

Lemma national_indicators_ranges_witness :
  0 <= stability (get_national_indicators no_rounding 0 finance_df None) <= 100.
Proof.
  apply (national_indicators_ranges no_rounding (proj1 rounding_free)
           (proj2 rounding_free) 0 finance_df None).
  repeat constructor; simpl; lia.
Defined.

Lemma get_sector_status_range_witness :
  get_sector_status no_rounding finance_df
  = Ok [("INFRASTRUCTURE", 0); ("LOGISTICS", 0); ("FINANCE", 60);
        ("LABOR", 0); ("SOCIETY", 0); ("EVENTS", 0)].
Proof.
  destruct (get_sector_status_range no_rounding (proj1 rounding_free)
              (proj2 rounding_free) finance_df) as [status [E _]].
  - discriminate.
  - repeat constructor; eexists; (split; [reflexivity | lia]).
  - reflexivity.
Defined.

Lemma get_sector_status_nan_witness :
  get_sector_status no_rounding (unscored "LABOR" :: finance_df)
  = Raised "cannot convert float NaN to integer".
Proof.
  apply (get_sector_status_nan no_rounding (unscored "LABOR" :: finance_df)
           "LABOR" (unscored "LABOR")).
  - simpl. tauto.
  - now left.
  - reflexivity.
  - intros x [<- | []]. reflexivity.
Defined.

End AnalyticsExtra.

(** ** When a forecast exists *)

Module ForecastExtra.
Import Py Analytics AnalyticsSpec.

Local Open Scope Z_scope.

Lemma minimum_le (t : Z) (ts : list Z) :
  minimum t ts <= t /\ Forall (fun x => minimum t ts <= x) ts.
Proof.
  unfold minimum. induction ts as [|x ts [IH1 IH2]]; simpl.
  - split; [lia | constructor].
  - split; [lia|]. constructor; [lia|].
    revert IH2. apply Forall_impl. intros y Hy. lia.
Qed.

Lemma maximum_ge (t : Z) (ts : list Z) :
  t <= maximum t ts /\ Forall (fun x => x <= maximum t ts) ts.
Proof.
  unfold maximum. induction ts as [|x ts [IH1 IH2]]; simpl.
  - split; [lia | constructor].
  - split; [lia|]. constructor; [lia|].
    revert IH2. apply Forall_impl. intros y Hy. lia.
Qed.

Lemma minimum_bound (lo t : Z) (ts : list Z) :
  lo <= t -> Forall (fun x => lo <= x) ts -> lo <= minimum t ts.
Proof.
  intros Ht H. unfold minimum. induction H; simpl; lia.
Qed.

Lemma maximum_bound (hi t : Z) (ts : list Z) :
  t < hi -> Forall (fun x => x < hi) ts -> maximum t ts < hi.
Proof.
  intros Ht H. unfold maximum. induction H; simpl; lia.
Qed.

Lemma floor_hour_spec (t : Z) :
  exists k, floor_hour t = hours k /\ hours k <= t < hours (k + 1).
Proof.
  exists (t / hours 1). unfold floor_hour, hours.
  pose proof (Z.div_mod t (1 * 3600000000000) ltac:(lia)) as H1.
  pose proof (Z.mod_pos_bound t (1 * 3600000000000) ltac:(lia)) as H2.
  lia.
Qed.

Section Span.

Variable fl : Q -> Q.

(** The number of hourly buckets: one more than the number of hours from
    the hour of the earliest timestamp to the hour of the latest. *)
Lemma history_length (c : Z * option Z) (cs : list (Z * option Z)) :
  exists k1 k2,
    floor_hour (minimum (fst c) (map fst cs)) = hours k1 /\
    floor_hour (maximum (fst c) (map fst cs)) = hours k2 /\
    k1 <= k2 /\
    len (resample_hourly fl (c :: cs)) = k2 - k1 + 1.
Proof.
  destruct (floor_hour_spec (minimum (fst c) (map fst cs)))
    as [k1 [E1 B1]].
  destruct (floor_hour_spec (maximum (fst c) (map fst cs)))
    as [k2 [E2 B2]].
  pose proof (minimum_le (fst c) (map fst cs)) as [M1 _].
  pose proof (maximum_ge (fst c) (map fst cs)) as [M2 _].
  assert (Hk : k1 <= k2) by (unfold hours in *; lia).
  exists k1, k2. repeat split; try assumption.
  unfold resample_hourly, len. cbn [map]. cbv zeta.
  rewrite length_map, hour_labels_length, E1, E2.
  replace ((hours k2 - hours k1) / hours 1) with (k2 - k1).
  - lia.
  - unfold hours. apply Z.div_unique with 0; lia.
Qed.

(** Whether [get_forecast] returns a chart depends only on the hours of
    the earliest and the latest timestamp among the matching articles: it
    does exactly when they lie at least two hours apart.  So no number of
    articles inside two consecutive clock hours gives a forecast. *)
Theorem get_forecast_needs_three_hours (df : DataFrame)
  (sector_filter : option string) :
  match map fst (timed (_get_data df sector_filter)) with
  | [] => get_forecast fl df sector_filter = None
  | t :: ts =>
      let span := floor_hour (maximum t ts) - floor_hour (minimum t ts) in
      (span < hours 2 -> get_forecast fl df sector_filter = None) /\
      (hours 2 <= span ->
       exists chart, get_forecast fl df sector_filter = Some chart) /\
      (forall k,
          Forall (fun x => hours k <= x < hours (k + 2)) (t :: ts) ->
          get_forecast fl df sector_filter = None)
  end.
Proof.
  rewrite get_forecast_unfold. unfold hourly_history.
  destruct (timed (_get_data df sector_filter)) as [|c cs]; [reflexivity|].
  cbn [map]. cbv zeta.
  destruct (history_length c cs) as [k1 [k2 [E1 [E2 [Hk Hlen]]]]].
  rewrite E1, E2.
  assert (Hnone : hours k2 - hours k1 < hours 2 ->
                  (if len (resample_hourly fl (c :: cs)) <? 3
                   then None
                   else
                     match item_last (resample_hourly fl (c :: cs)) with
                     | Some (last_date, last_value) =>
                         Some
                           (map
                              (chart_row (resample_hourly fl (c :: cs))
                                 last_date last_value)
                              (map fst (resample_hourly fl (c :: cs)) ++
                               [last_date + hours 1; last_date + hours 2;
                                last_date + hours 3; last_date + hours 4]))
                     | None => None
                     end) = None).
  { intros Hspan.
    destruct (Z.ltb_spec (len (resample_hourly fl (c :: cs))) 3);
      [reflexivity|]. unfold hours in *. lia. }
  split; [exact Hnone|]. split.
  - intros Hspan.
    destruct (Z.ltb_spec (len (resample_hourly fl (c :: cs))) 3) as [H | H];
      [unfold hours in *; lia|].
    destruct (item_last_some (resample_hourly fl (c :: cs)))
      as [[last_date last_value] ->]; [|eauto].
    intros E. rewrite E in H. unfold len in H. simpl in H. lia.
  - intros k Hall. apply Hnone.
    inversion Hall as [|x xs Hc Hcs]; subst.
    assert (Hmin : hours k <= minimum (fst c) (map fst cs)).
    { apply minimum_bound; [lia|].
      revert Hcs. apply Forall_impl. intros y Hy. lia. }
    assert (Hmax : maximum (fst c) (map fst cs) < hours (k + 2)).
    { apply maximum_bound; [lia|].
      revert Hcs. apply Forall_impl. intros y Hy. lia. }
    destruct (floor_hour_spec (minimum (fst c) (map fst cs)))
      as [j1 [F1 B1]].
    destruct (floor_hour_spec (maximum (fst c) (map fst cs)))
      as [j2 [F2 B2]].
    rewrite E1 in F1. rewrite E2 in F2. unfold hours in *. lia.
Qed.

End Span.

Lemma get_forecast_needs_three_hours_witness :
  get_forecast no_rounding
    [timed_row 40 (hours 1 + 59); timed_row 90 (hours 1); timed_row 10 5;
     timed_row 70 0] None
  = None.
Proof.
  apply (get_forecast_needs_three_hours no_rounding
           [timed_row 40 (hours 1 + 59); timed_row 90 (hours 1);
            timed_row 10 5; timed_row 70 0] None).
  reflexivity.
Defined.

End ForecastExtra.
